(** * Connector framework: discovery, protocol selection and pair planning

    A shallow embedding of [src/connectors/core/connector_framework.py]:
    the signal extractors of [ApplicationDiscoveryAgent], the application
    profiler, and the protocol selector and pairing loop of
    [ConnectorOrchestrator].

    Conventions of the embedding.
    - Python [str] is [string]; one [ascii] stands for one character, so
      texts are those whose code points are below 256.
    - A Python [dict] is an association list in insertion order whose keys
      are pairwise distinct ([dict_wf]); [dict_set] is item assignment.
    - A Python function that can raise returns [result]; [Raise e] is the
      exception leaving the function.
    - What the code observes of the file system is a record of
      observations ([FileSystem]); an observation that can raise returns
      [result]. *)

From Stdlib Require Import List String Ascii Bool Arith ZArith QArith Lia.
Import ListNotations.

Close Scope Q_scope.
Open Scope string_scope.
Open Scope list_scope.

Set Implicit Arguments.

(** ** Exceptions and fallible computations *)

Inductive exn : Type :=
| JSONDecodeError
| UnicodeDecodeError
| OSError
| TypeError
| AttributeError
| KeyError
| ValueError
| PermissionError.

Inductive result (A : Type) : Type :=
| Ok (a : A)
| Raise (e : exn).

Arguments Ok {A} a.
Arguments Raise {A} e.

Definition bind {A B : Type} (m : result A) (k : A -> result B) : result B :=
  match m with
  | Ok a => k a
  | Raise e => Raise e
  end.

Notation "x <- m ;; k" := (bind m (fun x => k))
  (at level 61, m at next level, right associativity).

(** [try: ... except Exception: h] *)
Definition try_except {A : Type} (m : result A) (h : exn -> A) : A :=
  match m with
  | Ok a => a
  | Raise e => h e
  end.

Fixpoint mapM {A B : Type} (f : A -> result B) (l : list A) : result (list B) :=
  match l with
  | [] => Ok []
  | x :: l' => y <- f x ;; ys <- mapM f l' ;; Ok (y :: ys)
  end.

(** ** Python dictionaries (insertion ordered) *)

Section Dict.
Variable V : Type.

Definition dict : Type := list (string * V).

Definition keys (d : dict) : list string := map fst d.

Fixpoint dict_get (d : dict) (k : string) : option V :=
  match d with
  | [] => None
  | (k', v) :: d' => if String.eqb k k' then Some v else dict_get d' k
  end.

(** [k in d] *)
Definition dict_has (d : dict) (k : string) : bool :=
  match dict_get d k with Some _ => true | None => false end.

(** [d[k]]: raises [KeyError] on a missing key. *)
Definition dict_item (d : dict) (k : string) : result V :=
  match dict_get d k with Some v => Ok v | None => Raise KeyError end.

(** [d[k] = v]: an existing key keeps its position. *)
Fixpoint dict_set (d : dict) (k : string) (v : V) : dict :=
  match d with
  | [] => [(k, v)]
  | (k', v') :: d' =>
      if String.eqb k k' then (k', v) :: d' else (k', v') :: dict_set d' k v
  end.

Definition dict_wf (d : dict) : Prop := NoDup (keys d).
End Dict.

(** ** Data model *)

Inductive ApplicationType : Type :=
| NODEJS_TYPESCRIPT
| PYTHON_STREAMLIT
| REACT_FRONTEND
| EXPRESS_BACKEND.

Inductive ConnectionProtocol : Type :=
| REST_API
| WEBSOCKET
| GRAPHQL
| MESSAGE_QUEUE
| DIRECT_FUNCTION.

(** Values produced by [json.load]. *)
#[warning="-register-all"]
Inductive json : Type :=
| JNull
| JBool (b : bool)
| JInt (z : Z)
| JFloat (q : Q)
| JStr (s : string)
| JArr (l : list json)
| JObj (d : list (string * json)).

(** What [_parse_schema_file] returns: the summary with its [tables] and
    [raw_content] entries, or the one with its [error] entry. *)
Inductive schema_summary : Type :=
| SchemaContent (tables : dict json) (raw_content : string)
| SchemaError (e : exn).

Record ApplicationMetadata : Type := {
  name : string;
  type : ApplicationType;
  base_path : string;
  port : option Z;
  api_endpoints : list string;
  database_schema : dict schema_summary;
  dependencies : list string;
  integration_points : list (dict json)
}.

Record ConnectorConfig : Type := {
  source_app : string;
  target_app : string;
  protocols : list ConnectionProtocol;
  data_mappings : dict string;
  transformation_rules : list (dict json);
  sync_frequency : string;
  error_handling : dict json
}.

Definition ApplicationType_eqb (a b : ApplicationType) : bool :=
  match a, b with
  | NODEJS_TYPESCRIPT, NODEJS_TYPESCRIPT
  | PYTHON_STREAMLIT, PYTHON_STREAMLIT
  | REACT_FRONTEND, REACT_FRONTEND
  | EXPRESS_BACKEND, EXPRESS_BACKEND => true
  | _, _ => false
  end.

(** [x in l] for a list of application types. *)
Definition type_in (x : ApplicationType) (l : list ApplicationType) : bool :=
  existsb (ApplicationType_eqb x) l.

(** Truth value of a Python list. *)
Definition truthy {A : Type} (l : list A) : bool :=
  match l with [] => false | _ :: _ => true end.


(** ** Text helpers *)

(** The double quote character. *)
Definition dq : ascii := "034"%char.

(** The single quote character. *)
Definition sq : ascii := "039"%char.

(** The character class of the route patterns: a single or a double quote. *)
Definition is_quote (c : ascii) : bool := Ascii.eqb c sq || Ascii.eqb c dq.

(** [\d] on characters below 256: the ten decimal digits. *)
Definition is_digit (c : ascii) : bool :=
  let n := nat_of_ascii c in (48 <=? n)%nat && (n <=? 57)%nat.

(** [s.startswith(p)], returning what follows [p]. *)
Fixpoint strip_prefix (p s : string) : option string :=
  match p, s with
  | EmptyString, _ => Some s
  | String a p', String b s' => if Ascii.eqb a b then strip_prefix p' s' else None
  | String _ _, EmptyString => None
  end.

(** The longest prefix of [s] whose characters satisfy [f], and the rest. *)
Fixpoint span (f : ascii -> bool) (s : string) : string * string :=
  match s with
  | EmptyString => (EmptyString, EmptyString)
  | String c s' =>
      if f c then let (a, b) := span f s' in (String c a, b)
      else (EmptyString, s)
  end.

(** [p in s] for two strings: [p] occurs somewhere in [s]. *)
Fixpoint str_contains (p s : string) : bool :=
  match strip_prefix p s with
  | Some _ => true
  | None => match s with
            | EmptyString => false
            | String _ s' => str_contains p s'
            end
  end.

(** The value of a string of decimal digits. *)
Definition int_of_digits (ds : string) : Z :=
  fold_left (fun acc c => (10 * acc + Z.of_nat (nat_of_ascii c - 48))%Z)
            (list_ascii_of_string ds) 0%Z.

(** The interpreter's default for [sys.get_int_max_str_digits()]. *)
Definition int_max_str_digits : nat := 4300.

(** [int(ds)] for a string of decimal digits: a string of more digits than
    the limit is refused with ValueError. *)
Definition int_of_str (ds : string) : result Z :=
  if (String.length ds <=? int_max_str_digits)%nat
  then Ok (int_of_digits ds)
  else Raise ValueError.

(** [s[:n]] *)
Fixpoint str_take (n : nat) (s : string) : string :=
  match n, s with
  | S n', String c s' => String c (str_take n' s')
  | _, _ => EmptyString
  end.

(** ** Operations on JSON values *)

(** Truth value of a loaded JSON value ([not package_json]). *)
Definition json_truthy (j : json) : bool :=
  match j with
  | JNull => false
  | JBool b => b
  | JInt z => negb (Z.eqb z 0)
  | JFloat q => negb (Z.eqb (Qnum q) 0)
  | JStr s => negb (String.eqb s EmptyString)
  | JArr l => truthy l
  | JObj d => truthy d
  end.

(** [k in j] for a string [k]: key membership in a dict, element
    membership in a list, substring test in a string, [TypeError] on the
    rest. *)
Definition json_contains (j : json) (k : string) : result bool :=
  match j with
  | JObj d => Ok (dict_has d k)
  | JArr l => Ok (existsb (fun e => match e with
                                    | JStr s => String.eqb s k
                                    | _ => false
                                    end) l)
  | JStr s => Ok (str_contains k s)
  | _ => Raise TypeError
  end.

(** [j[k]] for a string [k]. *)
Definition json_getitem (j : json) (k : string) : result json :=
  match j with
  | JObj d => dict_item d k
  | _ => Raise TypeError
  end.

(** [j.get(k, default)] *)
Definition json_get (j : json) (k : string) (default : json) : result json :=
  match j with
  | JObj d => Ok (match dict_get d k with Some v => v | None => default end)
  | _ => Raise AttributeError
  end.

(** [j.keys()] *)
Definition json_keys (j : json) : result (list string) :=
  match j with
  | JObj d => Ok (keys d)
  | _ => Raise AttributeError
  end.

(** Every dict inside a loaded value has pairwise distinct keys. *)
Fixpoint json_wf (j : json) : Prop :=
  match j with
  | JArr l => fold_right (fun x acc => json_wf x /\ acc) True l
  | JObj d =>
      NoDup (map fst d) /\
      fold_right (fun kv acc => json_wf (snd kv) /\ acc) True d
  | _ => True
  end.

(** ** The file system as the code observes it *)

Record FileSystem : Type := {
  (** [Path.exists()]: the answer, or the error that [stat] gave and that
      pathlib does not take for an absent path *)
  path_exists : string -> result bool;
  (** [Path.is_file()], likewise *)
  is_file : string -> result bool;
  (** [path.glob(pattern)], in the order of iteration *)
  glob : string -> string -> list string;
  (** [open(p, 'r', encoding='utf-8')] followed by [f.read()] *)
  read_text : string -> result string;
  (** [open(p, 'r')] followed by [json.load(f)] *)
  load_json : string -> result json
}.

(** [path / child] *)
Definition joinpath (path child : string) : string := path ++ "/" ++ child.

Notation "p // c" := (joinpath p c) (at level 40, left associativity).

(** [a or b] on two probes: [b] is evaluated only when [a] answers False. *)
Definition or_else (a b : result bool) : result bool :=
  found <- a ;; if found then Ok true else b.

(** The loop [for x in l: out.extend(f(x))] with a body that can raise. *)
Fixpoint flat_mapM {A B : Type} (f : A -> result (list B)) (l : list A)
  : result (list B) :=
  match l with
  | [] => Ok []
  | x :: l' => ys <- f x ;; rest <- flat_mapM f l' ;; Ok (ys ++ rest)
  end.

(** ** ApplicationDiscoveryAgent *)

Module Discovery.

(** [_determine_application_type] *)
Definition _determine_application_type (fs : FileSystem) (name path : string)
  : result ApplicationType :=
  if String.eqb name "ParadoxResolver" then Ok PYTHON_STREAMLIT
  else
    has_manifest <- path_exists fs (path // "package.json") ;;
    if has_manifest then
      has_components <-
        or_else (path_exists fs (path // "src" // "components"))
                (path_exists fs (path // "client" // "src")) ;;
      if has_components then Ok REACT_FRONTEND else Ok NODEJS_TYPESCRIPT
    else Ok NODEJS_TYPESCRIPT.

(** [re.search] of the pattern PORT=(\d+), answering [match.group(1)]: the
    leftmost place where PORT= is followed by a digit, and the longest run
    of digits there. *)
Fixpoint search_port (s : string) : option string :=
  let next := match s with
              | EmptyString => None
              | String _ s' => search_port s'
              end in
  match strip_prefix "PORT=" s with
  | Some r =>
      match fst (span is_digit r) with
      | EmptyString => next
      | ds => Some ds
      end
  | None => next
  end.

(** [_extract_port] *)
Definition _extract_port (package_json : option json) : result (option Z) :=
  match package_json with
  | None => Ok None
  | Some pj =>
      if negb (json_truthy pj) then Ok None else
      has_scripts <- json_contains pj "scripts" ;;
      if negb has_scripts then Ok None else
      scripts <- json_getitem pj "scripts" ;;
      dev_script <- json_get scripts "dev" (JStr "") ;;
      has_port <- json_contains dev_script "PORT=" ;;
      if has_port then
        match dev_script with
        | JStr s =>
            match search_port s with
            | Some digits => value <- int_of_str digits ;; Ok (Some value)
            | None => Ok None
            end
        | _ => Raise TypeError
        end
      else Ok None
  end.

(** The six patterns of [express_patterns]. Each is a literal head, then a
    quote character, then a group of one or more characters that are not
    quote characters, then a quote character; the list holds the heads. *)
Definition express_patterns : list string :=
  [ "app.get("; "app.post("; "app.put("; "app.delete(";
    "router.get("; "router.post(" ].

(** A match of one route pattern at the start of [s]: the group and the
    text after the match. The group is greedy and the character after it
    must be a quote, so it is the whole run of characters up to the next
    quote. *)
Definition match_route (head s : string) : option (string * string) :=
  match strip_prefix head s with
  | Some (String q r) =>
      if is_quote q then
        match span (fun c => negb (is_quote c)) r with
        | (String c cap, String q' rest) =>
            if is_quote q' then Some (String c cap, rest) else None
        | _ => None
        end
      else None
  | _ => None
  end.

(** The matches of one pattern from left to right, each with the offset
    of its start: a match is followed by a search in the text after it, a
    failure by a search one character further. *)
Fixpoint finditer_from (fuel : nat) (head : string) (pos : nat) (s : string)
  : list (nat * string) :=
  match fuel with
  | O => []
  | S fuel' =>
      match match_route head s with
      | Some (cap, rest) =>
          (pos, cap)
            :: finditer_from fuel' head (pos + (String.length s - String.length rest)) rest
      | None =>
          match s with
          | EmptyString => []
          | String _ s' => finditer_from fuel' head (S pos) s'
          end
      end
  end.

Definition finditer (head s : string) : list (nat * string) :=
  finditer_from (S (String.length s)) head 0 s.

(** [re.findall(pattern, content)] for a pattern with one group. *)
Definition findall (head s : string) : list string :=
  map snd (finditer head s).

(** [_parse_routes_from_file] *)
Definition _parse_routes_from_file (fs : FileSystem) (file_path : string)
  : list string :=
  try_except
    (content <- read_text fs file_path ;;
     Ok (flat_map (fun pattern => findall pattern content) express_patterns))
    (fun _ => []).

(** [_extract_api_endpoints] *)
Definition _extract_api_endpoints (fs : FileSystem) (name path : string)
  : result (list string) :=
  let server_patterns :=
    ["server/**/*.ts"; "server/**/*.js"; "src/**/*.ts"; "src/**/*.js"] in
  flat_mapM (fun pattern =>
    flat_mapM (fun file_path =>
      regular <- is_file fs file_path ;;
      if regular then Ok (_parse_routes_from_file fs file_path)
      else Ok [])
      (glob fs path pattern))
    server_patterns.

(** [_parse_schema_file] *)
Definition _parse_schema_file (fs : FileSystem) (file_path : string)
  : schema_summary :=
  try_except
    (content <- read_text fs file_path ;;
     Ok (SchemaContent [] (str_take 1000 content)))
    (fun e => SchemaError e).

(** [_extract_database_schema] *)
Definition _extract_database_schema (fs : FileSystem) (name path : string)
  : result (dict schema_summary) :=
  let schema_patterns := ["**/schema.ts"; "**/schema.sql"; "**/migrations/**"] in
  fold_left (fun acc pattern =>
    fold_left (fun acc file_path =>
      schema <- acc ;;
      regular <- is_file fs file_path ;;
      if regular
      then Ok (dict_set schema file_path (_parse_schema_file fs file_path))
      else Ok schema)
      (glob fs path pattern) acc)
    schema_patterns (Ok []).

(** The loop of [_extract_dependencies] over the section names. *)
Fixpoint extend_with_sections (pj : json) (sections deps : list string)
  : result (list string) :=
  match sections with
  | [] => Ok deps
  | section :: rest =>
      declared <- json_contains pj section ;;
      if declared then
        value <- json_getitem pj section ;;
        names <- json_keys value ;;
        extend_with_sections pj rest (deps ++ names)
      else extend_with_sections pj rest deps
  end.

(** [_extract_dependencies] *)
Definition _extract_dependencies (package_json : option json)
  : result (list string) :=
  match package_json with
  | None => Ok []
  | Some pj =>
      if negb (json_truthy pj) then Ok []
      else extend_with_sections pj ["dependencies"; "devDependencies"] []
  end.

(** [_analyze_application] *)
Definition _analyze_application (fs : FileSystem) (name path : string)
  : result ApplicationMetadata :=
  app_type <- _determine_application_type fs name path ;;
  package_json <-
    (if type_in app_type [NODEJS_TYPESCRIPT; REACT_FRONTEND] then
       let package_path := path // "package.json" in
       present <- path_exists fs package_path ;;
       if present then
         loaded <- load_json fs package_path ;; Ok (Some loaded)
       else Ok None
     else Ok None) ;;
  endpoints <- _extract_api_endpoints fs name path ;;
  db_schema <- _extract_database_schema fs name path ;;
  extracted_port <- _extract_port package_json ;;
  extracted_deps <- _extract_dependencies package_json ;;
  Ok {| name := name;
        type := app_type;
        base_path := path;
        port := extracted_port;
        api_endpoints := endpoints;
        database_schema := db_schema;
        dependencies := extracted_deps;
        integration_points := [] |}.

Definition app_directories : list string :=
  [ "HumanityFrontier"; "SpaceAgent"; "MusicPortal"; "ParadoxResolver";
    "ConsciousnessProbe"; "QuantumSingularity"; "pitchfork-echo-studio";
    "SpaceChild" ].

(** [discover_applications]: [parent] is [self.workspace_path.parent] and
    [applications] the registry held by the agent when the call starts. *)
Definition discover_applications (fs : FileSystem) (parent : string)
  (applications : dict ApplicationMetadata)
  : result (dict ApplicationMetadata) :=
  fold_left (fun acc app_name =>
    applications <- acc ;;
    let app_path := parent // app_name in
    present <- path_exists fs app_path ;;
    if present then
      metadata <- _analyze_application fs app_name app_path ;;
      Ok (dict_set applications app_name metadata)
    else Ok applications)
    app_directories (Ok applications).

End Discovery.

(** ** ConnectorOrchestrator *)

Module Orchestrator.

(** [_determine_protocols] *)
Definition _determine_protocols (source target : ApplicationMetadata)
  : list ConnectionProtocol :=
  let protocols := [] in
  let protocols :=
    if truthy (api_endpoints source) || truthy (api_endpoints target)
    then protocols ++ [REST_API] else protocols in
  let protocols :=
    if type_in (type source) [REACT_FRONTEND; NODEJS_TYPESCRIPT]
    then protocols ++ [WEBSOCKET] else protocols in
  let protocols :=
    if negb (truthy protocols)
    then protocols ++ [REST_API] else protocols in
  protocols.

(** [_create_connector_config] *)
Definition _create_connector_config (applications : dict ApplicationMetadata)
  (source_app target_app : string) : result ConnectorConfig :=
  source_meta <- dict_item applications source_app ;;
  target_meta <- dict_item applications target_app ;;
  let protocols := _determine_protocols source_meta target_meta in
  Ok {| source_app := source_app;
        target_app := target_app;
        protocols := protocols;
        data_mappings := [];
        transformation_rules := [];
        sync_frequency := "real_time";
        error_handling := [] |}.

(** [enumerate(l)] *)
Fixpoint enumerate_from {A : Type} (i : nat) (l : list A) : list (nat * A) :=
  match l with
  | [] => []
  | x :: l' => (i, x) :: enumerate_from (S i) l'
  end.

Definition enumerate {A : Type} (l : list A) : list (nat * A) :=
  enumerate_from 0 l.

Section Generation.

(** What the generation agent hands back for one configuration (in the
    source, the path of the written connector). *)
Variable Artifact : Type.

(** [self.generation_agent.generate_connector] *)
Variable generate_connector : ConnectorConfig -> result Artifact.

(** [generate_all_connectors] *)
Definition generate_all_connectors (applications : dict ApplicationMetadata)
  : result (list Artifact) :=
  let app_names := keys applications in
  fold_left (fun acc (entry : nat * string) =>
    let (i, source_app) := entry in
    fold_left (fun acc target_app =>
      generated_connectors <- acc ;;
      if negb (String.eqb source_app target_app) then
        config <- _create_connector_config applications source_app target_app ;;
        connector_path <- generate_connector config ;;
        Ok (generated_connectors ++ [connector_path])
      else Ok generated_connectors)
      (skipn (i + 1) app_names) acc)
    (enumerate app_names) (Ok []).

End Generation.

(** The configurations that [generate_all_connectors] builds, in order:
    the run of the loop with a generation agent that hands back the
    configuration it is given. *)
Definition planned_configs (applications : dict ApplicationMetadata)
  : result (list ConnectorConfig) :=
  generate_all_connectors (fun config => Ok config) applications.

End Orchestrator.

(** ** Notions used to state the properties *)

(** The live archetypes of the WebSocket rule. *)
Definition live (t : ApplicationType) : bool :=
  type_in t [REACT_FRONTEND; NODEJS_TYPESCRIPT].

(** Two protocol lists with the same set of tags. *)
Definition same_protocol_set (p q : list ConnectionProtocol) : Prop :=
  forall t, In t p <-> In t q.

(** The unordered pair of names a configuration connects. *)
Definition connects (c : ConnectorConfig) (x y : string) : Prop :=
  (source_app c = x /\ target_app c = y) \/
  (source_app c = y /\ target_app c = x).

(** The package names a manifest declares in one section. *)
Definition section_names (pj : json) (section : string) : list string :=
  match pj with
  | JObj d =>
      match dict_get d section with
      | Some (JObj fields) => keys fields
      | _ => []
      end
  | _ => []
  end.

(** A manifest whose section, when present, is an object. *)
Definition section_is_object (d : dict json) (section : string) : bool :=
  match dict_get d section with
  | Some (JObj _) | None => true
  | Some _ => false
  end.

(** ** Sample inputs *)

Definition sample_app (n : string) (t : ApplicationType) (eps : list string)
  : ApplicationMetadata :=
  {| name := n; type := t; base_path := "/work" // n; port := None;
     api_endpoints := eps; database_schema := []; dependencies := [];
     integration_points := [] |}.

(** A notebook-style application and a script-runtime one, neither with
    any discovered route. *)
Definition paradox : ApplicationMetadata :=
  sample_app "ParadoxResolver" PYTHON_STREAMLIT [].

Definition probe : ApplicationMetadata :=
  sample_app "ConsciousnessProbe" NODEJS_TYPESCRIPT [].

(** A record of the backend archetype without any discovered route. *)
Definition backend : ApplicationMetadata :=
  sample_app "Gateway" EXPRESS_BACKEND [].

(** A manifest whose dev script sets the port. *)
Definition manifest_with_dev (script : string) : json :=
  JObj [ ("name", JStr "space-agent");
         ("scripts", JObj [("dev", JStr script)]) ].

(** A file system holding the listed paths and no source files; loading
    any manifest gives [manifest]. *)
Definition fs_with (present : list string) (manifest : result json)
  : FileSystem :=
  {| path_exists := fun p => Ok (existsb (String.eqb p) present);
     is_file := fun _ => Ok false;
     glob := fun _ _ => [];
     read_text := fun _ => Raise OSError;
     load_json := fun _ => manifest |}.

(** An application directory with a component directory and no manifest. *)
Definition fs_components_only : FileSystem :=
  fs_with ["/work/SpaceAgent"; "/work/SpaceAgent/src/components"]
          (Raise OSError).

(** An application directory whose manifest does not parse. *)
Definition fs_malformed_manifest : FileSystem :=
  fs_with ["/work/SpaceAgent"; "/work/SpaceAgent/package.json"]
          (Raise JSONDecodeError).

(** An application directory with a manifest and a component directory. *)
Definition fs_frontend : FileSystem :=
  fs_with ["/work/SpaceAgent"; "/work/SpaceAgent/package.json";
           "/work/SpaceAgent/client/src"]
          (Ok (JObj [])).

(** The manifest of the dependency example: express under dependencies,
    jest under devDependencies. *)
Definition manifest_express_jest : json :=
  JObj [ ("dependencies", JObj [("express", JStr "1.0")]);
         ("devDependencies", JObj [("jest", JStr "2.0")]) ].

(** A manifest that declares typescript in both sections. *)
Definition manifest_shared_name : json :=
  JObj [ ("dependencies", JObj [("typescript", JStr "5.0")]);
         ("devDependencies", JObj [("typescript", JStr "5.0")]) ].

(** The text of a string literal with quote character [q]. *)
Definition quoted (q : ascii) (s : string) : string :=
  String q (s ++ String q EmptyString).

(** The text of the call [handler.verb(q path q)]. *)
Definition call (handler verb : string) (q : ascii) (path : string) : string :=
  handler ++ "." ++ verb ++ "(" ++ quoted q path ++ ")".

(** A file system in which every path is a file with the given text. *)
Definition fs_file (content : string) : FileSystem :=
  {| path_exists := fun _ => Ok true;
     is_file := fun _ => Ok true;
     glob := fun _ _ => [];
     read_text := fun _ => Ok content;
     load_json := fun _ => Raise JSONDecodeError |}.

(** An app.get call followed by a router.post call. *)
Definition text_users_then_orders : string :=
  call "app" "get" dq "/api/users" ++ "; "
    ++ call "router" "post" dq "/api/orders" ++ ";".

(** A router.post call followed by an app.get call. *)
Definition text_orders_then_users : string :=
  call "router" "post" dq "/api/orders" ++ "; "
    ++ call "app" "get" dq "/api/users" ++ ";".

(** A match of the pattern with head [head] and group [cap] starting at
    offset [off] of [content]. *)
Definition occurs_at (head cap : string) (off : nat) (content : string) : Prop :=
  exists (pre : string) (q1 q2 : ascii) (post : string),
    content = (pre ++ head ++ String q1 (cap ++ String q2 post))%string /\
    String.length pre = off /\
    is_quote q1 = true /\ is_quote q2 = true /\
    cap <> EmptyString /\
    forallb (fun c => negb (is_quote c)) (list_ascii_of_string cap) = true.

(** Offsets that strictly increase along a list of matches. *)
Fixpoint increasing_from (lo : nat) (ms : list (nat * string)) : Prop :=
  match ms with
  | [] => True
  | (off, _) :: ms' => lo <= off /\ increasing_from (S off) ms'
  end.

(** The body of the inner loop of [generate_all_connectors] for one pair
    that passes the test: build the configuration, hand it to the
    generation agent. *)
Definition pair_body (Artifact : Type)
  (generate_connector : ConnectorConfig -> result Artifact)
  (applications : dict ApplicationMetadata)
  (source_app target_app : string) : result Artifact :=
  config <- Orchestrator._create_connector_config applications source_app target_app ;;
  generate_connector config.

(** One pass of the inner loop of [generate_all_connectors]. *)
Definition inner_step (Artifact : Type)
  (generate_connector : ConnectorConfig -> result Artifact)
  (applications : dict ApplicationMetadata) (source_app : string)
  (acc : result (list Artifact)) (target_app : string) : result (list Artifact) :=
  generated_connectors <- acc ;;
  if negb (String.eqb source_app target_app) then
    config <- Orchestrator._create_connector_config applications source_app target_app ;;
    connector_path <- generate_connector config ;;
    Ok (generated_connectors ++ [connector_path])
  else Ok generated_connectors.

(** The pairs of the upper triangle of a list: every element with each
    element after it. *)
Fixpoint upper_pairs (l : list string) : list (string * string) :=
  match l with
  | [] => []
  | x :: l' => map (pair x) l' ++ upper_pairs l'
  end.

(** The source and target names of a configuration. *)
Definition endpoints_of (c : ConnectorConfig) : string * string :=
  (source_app c, target_app c).

(** A registry of three applications. *)
Definition registry3 : dict ApplicationMetadata :=
  [ ("SpaceAgent", sample_app "SpaceAgent" REACT_FRONTEND ["/api/agents"]);
    ("ParadoxResolver", paradox);
    ("ConsciousnessProbe", probe) ].

(** ** Further notions and sample inputs *)

(** A manifest object whose [scripts] entry, when present, is an object
    whose [dev] entry, when present, is a string. *)
Definition scripts_well_shaped (d : dict json) : bool :=
  match dict_get d "scripts" with
  | None => true
  | Some (JObj sc) =>
      match dict_get sc "dev" with
      | None | Some (JStr _) => true
      | Some _ => false
      end
  | Some _ => false
  end.

(** The dev script of a manifest object, the empty string when there is
    none. *)
Definition dev_script_of (d : dict json) : string :=
  match dict_get d "scripts" with
  | Some (JObj sc) =>
      match dict_get sc "dev" with
      | Some (JStr s) => s
      | _ => EmptyString
      end
  | _ => EmptyString
  end.

(** No character of [s] is a quote. *)
Definition quote_free (s : string) : bool :=
  forallb (fun c => negb (is_quote c)) (list_ascii_of_string s).

(** An application directory with a manifest that declares a port and two
    packages. *)
Definition manifest_full : json :=
  JObj [ ("name", JStr "space-agent");
         ("scripts", JObj [("dev", JStr "PORT=4000 vite dev")]);
         ("dependencies", JObj [("express", JStr "1.0")]);
         ("devDependencies", JObj [("jest", JStr "2.0")]) ].

Definition fs_full_manifest : FileSystem :=
  fs_with ["/work/SpaceAgent"; "/work/SpaceAgent/package.json"]
          (Ok manifest_full).

(** A text without any quote character. *)
Definition text_without_quotes : string := "export const answer = 42;".

(** The text of a small schema file. *)
Definition text_schema : string := "CREATE TABLE agents (id integer);".

(** An application with one server file and one schema file; the schema
    file is returned by two of the schema globs. *)
Definition fs_server : FileSystem :=
  {| path_exists := fun p => Ok (existsb (String.eqb p)
                                   ["/work/SpaceAgent";
                                    "/work/SpaceAgent/server/routes.ts";
                                    "/work/SpaceAgent/migrations/schema.sql"]);
     is_file := fun p => Ok (existsb (String.eqb p)
                               ["/work/SpaceAgent/server/routes.ts";
                                "/work/SpaceAgent/migrations/schema.sql"]);
     glob := fun _ pattern =>
       if String.eqb pattern "server/**/*.ts"
       then ["/work/SpaceAgent/server/routes.ts"]
       else if String.eqb pattern "**/schema.sql"
               || String.eqb pattern "**/migrations/**"
       then ["/work/SpaceAgent/migrations/schema.sql"]
       else [];
     read_text := fun p =>
       if String.eqb p "/work/SpaceAgent/server/routes.ts"
       then Ok text_users_then_orders
       else if String.eqb p "/work/SpaceAgent/migrations/schema.sql"
       then Ok text_schema
       else Raise OSError;
     load_json := fun _ => Raise OSError |}.

(** A generation agent that fails on every configuration. *)
Definition failing_agent (c : ConnectorConfig) : result string :=
  Raise OSError.

(** The number of characters of a match of the pattern with head [head]
    and group [cap]: the head, two quotes and the group. *)
Definition match_span (head cap : string) : nat :=
  String.length head + String.length cap + 2.

(** Two app.get calls with a router.post call between them. *)
Definition text_two_gets : string :=
  call "app" "get" dq "/a" ++ "; "
    ++ call "router" "post" dq "/c" ++ "; "
    ++ call "app" "get" dq "/b" ++ ";".

(** A run of 4301 digits. *)
Definition long_digits : string :=
  string_of_list_ascii (repeat "7"%char 4301).

(** The probe of a directory answered True. *)
Definition exists_dir (fs : FileSystem) (p : string) : bool :=
  match path_exists fs p with
  | Ok b => b
  | Raise _ => false
  end.

(** Three application directories without manifest or source files. *)
Definition fs_three_apps : FileSystem :=
  fs_with ["/work/SpaceAgent"; "/work/ParadoxResolver";
           "/work/ConsciousnessProbe"]
          (Raise OSError).

(** A file system on which every probe is refused. *)
Definition fs_denied : FileSystem :=
  {| path_exists := fun _ => Raise PermissionError;
     is_file := fun _ => Raise PermissionError;
     glob := fun _ _ => [];
     read_text := fun _ => Raise PermissionError;
     load_json := fun _ => Raise PermissionError |}.
(** * Properties *)

Unset Implicit Arguments.

(** ** Registries *)

Lemma dict_set_keys (V : Type) (d : dict V) (k : string) (v : V) :
  keys (dict_set d k v) = if dict_has d k then keys d else keys d ++ [k].
Proof.
  unfold dict_has. induction d as [| [k' v'] d IH]; simpl; [reflexivity |].
  destruct (String.eqb k k'); [reflexivity |].
  simpl. rewrite IH. destruct (dict_get d k); reflexivity.
Qed.

Lemma dict_has_key (V : Type) (d : dict V) (k : string) :
  dict_has d k = false -> ~ In k (keys d).
Proof.
  unfold dict_has. induction d as [| [k' v'] d IH]; simpl; [tauto |].
  destruct (String.eqb_spec k k') as [-> | Hne]; [discriminate |].
  intros H [Heq | Hin]; [congruence | exact (IH H Hin)].
Qed.

(** Item assignment keeps the names of a dict distinct. *)
Lemma dict_set_wf (V : Type) (d : dict V) (k : string) (v : V) :
  dict_wf d -> dict_wf (dict_set d k v).
Proof.
  unfold dict_wf. intros Hwf. rewrite dict_set_keys.
  destruct (dict_has d k) eqn:Hk; [exact Hwf |].
  apply NoDup_app; [exact Hwf | repeat constructor; intros [] |].
  intros a Ha [Heq | []]. subst a. exact (dict_has_key _ d k Hk Ha).
Qed.

(** The registry that discovery returns has distinct names. *)
Lemma discover_applications_wf
  (fs : FileSystem) (parent : string)
  (applications registry : dict ApplicationMetadata) :
  dict_wf applications ->
  Discovery.discover_applications fs parent applications = Ok registry ->
  dict_wf registry.
Proof.
  unfold Discovery.discover_applications. intros Hwf.
  assert (Hstart : match Ok applications with
                   | Ok d => dict_wf d
                   | Raise _ => True
                   end) by exact Hwf.
  revert Hstart. generalize (Ok applications).
  generalize Discovery.app_directories.
  intros names. induction names as [| n names IH]; simpl; intros acc Hacc Hrun.
  - rewrite Hrun in Hacc. exact Hacc.
  - apply IH in Hrun; [exact Hrun |].
    destruct acc as [d |]; simpl; [| exact I].
    destruct (path_exists fs (parent // n)) as [[|] |]; simpl;
      [| exact Hacc | exact I].
    destruct (Discovery._analyze_application fs n (parent // n)); simpl; [| exact I].
    now apply dict_set_wf.
Qed.

(** ** Protocol selector *)

Import Orchestrator.

Lemma determine_protocols_cases (a b : ApplicationMetadata) :
  _determine_protocols a b =
    match truthy (api_endpoints a) || truthy (api_endpoints b),
          live (type a) with
    | true, true => [REST_API; WEBSOCKET]
    | true, false => [REST_API]
    | false, true => [WEBSOCKET]
    | false, false => [REST_API]
    end.
Proof.
  unfold _determine_protocols, live.
  destruct (truthy (api_endpoints a) || truthy (api_endpoints b));
    destruct (type_in (type a) [REACT_FRONTEND; NODEJS_TYPESCRIPT]);
    reflexivity.
Qed.

(** The WebSocket rule looks at the first argument only. *)
Lemma websocket_iff_source_live (a b : ApplicationMetadata) :
  In WEBSOCKET (_determine_protocols a b) <-> live (type a) = true.
Proof.
  rewrite determine_protocols_cases.
  destruct (truthy (api_endpoints a) || truthy (api_endpoints b));
    destruct (live (type a)); simpl; intuition discriminate.
Qed.

(** C1. The claim asks that [select(a, b)] and [select(b, a)] hold the same
    tags, with WebSocket present whenever either kind is live. On the pair
    of a notebook-style application and a script-runtime application
    without routes the code answers REST only in one order and WebSocket
    only in the other: the WebSocket rule reads the kind of the first
    argument alone, unlike the REST rule beside it, which reads both. *)
Theorem determine_protocols_depends_on_order :
  _determine_protocols paradox probe = [REST_API] /\
  _determine_protocols probe paradox = [WEBSOCKET] /\
  live (type probe) = true /\
  ~ In WEBSOCKET (_determine_protocols paradox probe) /\
  ~ same_protocol_set (_determine_protocols paradox probe)
                      (_determine_protocols probe paradox).
Proof.
  repeat split; try reflexivity.
  - simpl. intros [H | []]. discriminate.
  - intros H. destruct (proj1 (H REST_API)) as [E | []].
    + simpl. auto.
    + discriminate.
Qed.

(** The planner meets such a pair: in the three-application registry the
    notebook-style application comes before the script-runtime one, and the
    configuration planned for the two has REST only. *)
Example planned_pair_without_websocket :
  option_map (map protocols)
    (match planned_configs registry3 with Ok l => Some l | Raise _ => None end)
  = Some [[REST_API; WEBSOCKET]; [REST_API; WEBSOCKET]; [REST_API]].
Proof. reflexivity. Qed.

(** C3. For every pair of records the selector returns a non-empty list
    without repeated tags, and when neither record has a route and neither
    kind is live the list is exactly [REST_API]. *)
Theorem determine_protocols_nonempty_nodup (a b : ApplicationMetadata) :
  _determine_protocols a b <> [] /\
  NoDup (_determine_protocols a b) /\
  (api_endpoints a = [] -> api_endpoints b = [] ->
   live (type a) = false -> live (type b) = false ->
   _determine_protocols a b = [REST_API]).
Proof.
  rewrite determine_protocols_cases.
  split; [| split].
  - destruct (truthy (api_endpoints a) || truthy (api_endpoints b));
      destruct (live (type a)); discriminate.
  - destruct (truthy (api_endpoints a) || truthy (api_endpoints b));
      destruct (live (type a)); repeat constructor; simpl; intuition discriminate.
  - intros Ha Hb La _. rewrite Ha, Hb, La. reflexivity.
Qed.

Lemma determine_protocols_nonempty_nodup_witness :
  _determine_protocols paradox backend = [REST_API].
Proof.
  exact (proj2 (proj2 (determine_protocols_nonempty_nodup paradox backend))
           eq_refl eq_refl eq_refl eq_refl).
Defined.

(** C10. Every tag the selector returns is REST_API or WEBSOCKET; GRAPHQL,
    MESSAGE_QUEUE and DIRECT_FUNCTION never occur in its result. *)
Theorem determine_protocols_only_rest_or_websocket (a b : ApplicationMetadata) :
  Forall (fun t => t = REST_API \/ t = WEBSOCKET) (_determine_protocols a b) /\
  existsb (fun t => match t with
                    | GRAPHQL | MESSAGE_QUEUE | DIRECT_FUNCTION => true
                    | _ => false
                    end) (_determine_protocols a b) = false.
Proof.
  rewrite determine_protocols_cases.
  destruct (truthy (api_endpoints a) || truthy (api_endpoints b));
    destruct (live (type a)); split; try reflexivity;
    repeat (constructor; [tauto |]); constructor.
Qed.

(** ** Classification *)

Import Discovery.

(** C8, as stated, fails: an application with a component directory and no
    manifest file is classified as script-runtime, not as component-based
    frontend. *)
Lemma components_without_manifest_is_nodejs :
  String.eqb "SpaceAgent" "ParadoxResolver" = false /\
  path_exists fs_components_only ("/work/SpaceAgent" // "src" // "components")
    = Ok true /\
  path_exists fs_components_only ("/work/SpaceAgent" // "package.json")
    = Ok false /\
  _determine_application_type fs_components_only "SpaceAgent" "/work/SpaceAgent"
    = Ok NODEJS_TYPESCRIPT /\
  _determine_application_type fs_components_only "SpaceAgent" "/work/SpaceAgent"
    <> Ok REACT_FRONTEND.
Proof.
  repeat split; try reflexivity. discriminate.
Qed.

(** C8, amended. The name override comes first; otherwise an application is
    a component-based frontend exactly when a manifest file is present
    together with one of the component directories [src/components] and
    [client/src]; with a manifest file and no component directory, and
    without a manifest file whatever the directories, it is a script-runtime
    web application. *)
Theorem determine_application_type_priority
  (fs : FileSystem) (name path : string) :
  (name = "ParadoxResolver" ->
     _determine_application_type fs name path = Ok PYTHON_STREAMLIT) /\
  (name <> "ParadoxResolver" ->
     path_exists fs (path // "package.json") = Ok true ->
     path_exists fs (path // "src" // "components") = Ok true \/
     (path_exists fs (path // "src" // "components") = Ok false /\
      path_exists fs (path // "client" // "src") = Ok true) ->
     _determine_application_type fs name path = Ok REACT_FRONTEND) /\
  (name <> "ParadoxResolver" ->
     path_exists fs (path // "package.json") = Ok true ->
     path_exists fs (path // "src" // "components") = Ok false ->
     path_exists fs (path // "client" // "src") = Ok false ->
     _determine_application_type fs name path = Ok NODEJS_TYPESCRIPT) /\
  (name <> "ParadoxResolver" ->
     path_exists fs (path // "package.json") = Ok false ->
     _determine_application_type fs name path = Ok NODEJS_TYPESCRIPT).
Proof.
  unfold _determine_application_type, or_else.
  repeat split.
  - intros ->. reflexivity.
  - intros Hn Hm Hc. apply String.eqb_neq in Hn. rewrite Hn, Hm.
    destruct Hc as [Hc | [Hc Hc']]; rewrite Hc; cbn [bind]; [reflexivity |].
    rewrite Hc'. reflexivity.
  - intros Hn Hm Hc Hc'. apply String.eqb_neq in Hn.
    rewrite Hn, Hm, Hc. cbn [bind]. rewrite Hc'. reflexivity.
  - intros Hn Hm. apply String.eqb_neq in Hn. rewrite Hn, Hm. reflexivity.
Qed.

Lemma determine_application_type_priority_witness :
  _determine_application_type fs_frontend "ParadoxResolver" "/work/ParadoxResolver"
    = Ok PYTHON_STREAMLIT /\
  _determine_application_type fs_frontend "SpaceAgent" "/work/SpaceAgent"
    = Ok REACT_FRONTEND /\
  _determine_application_type fs_malformed_manifest "SpaceAgent" "/work/SpaceAgent"
    = Ok NODEJS_TYPESCRIPT /\
  _determine_application_type fs_components_only "SpaceAgent" "/work/SpaceAgent"
    = Ok NODEJS_TYPESCRIPT.
Proof.
  split; [| split; [| split]].
  - exact (proj1 (determine_application_type_priority fs_frontend
                    "ParadoxResolver" "/work/ParadoxResolver") eq_refl).
  - refine (proj1 (proj2 (determine_application_type_priority fs_frontend
                            "SpaceAgent" "/work/SpaceAgent")) _ eq_refl _).
    + discriminate.
    + right. split; reflexivity.
  - refine (proj1 (proj2 (proj2 (determine_application_type_priority
                                   fs_malformed_manifest
                                   "SpaceAgent" "/work/SpaceAgent")))
              _ eq_refl eq_refl eq_refl).
    discriminate.
  - refine (proj2 (proj2 (proj2 (determine_application_type_priority
                                   fs_components_only
                                   "SpaceAgent" "/work/SpaceAgent")))
              _ eq_refl).
    discriminate.
Defined.

(** ** Profiling *)

(** The type found for an application other than ParadoxResolver is one
    of the two whose manifest is loaded. *)
Lemma determine_application_type_loads_manifest
  (fs : FileSystem) (name path : string) (t : ApplicationType) :
  name <> "ParadoxResolver" ->
  _determine_application_type fs name path = Ok t ->
  type_in t [NODEJS_TYPESCRIPT; REACT_FRONTEND] = true.
Proof.
  unfold _determine_application_type, or_else. intros Hn.
  apply String.eqb_neq in Hn. rewrite Hn.
  destruct (path_exists fs (path // "package.json")) as [[|] |]; cbn [bind];
    try discriminate.
  - destruct (path_exists fs (path // "src" // "components")) as [[|] |];
      cbn [bind]; try discriminate.
    + intros H. injection H as <-. reflexivity.
    + destruct (path_exists fs (path // "client" // "src")) as [[|] |];
        cbn [bind]; try discriminate; intros H; injection H as <-; reflexivity.
  - intros H. injection H as <-. reflexivity.
Qed.

(** Without a manifest file, and when the scan of the directory returns,
    the profiler returns a record with no port and no dependency. *)
Lemma analyze_application_without_manifest
  (fs : FileSystem) (name path : string)
  (eps : list string) (schema : dict schema_summary) :
  path_exists fs (path // "package.json") = Ok false ->
  _extract_api_endpoints fs name path = Ok eps ->
  _extract_database_schema fs name path = Ok schema ->
  exists record,
    _analyze_application fs name path = Ok record /\
    port record = None /\ dependencies record = [].
Proof.
  intros Hm He Hs. unfold _analyze_application.
  assert (Ht : exists t, _determine_application_type fs name path = Ok t).
  { unfold _determine_application_type.
    destruct (String.eqb name "ParadoxResolver"); [eauto |].
    rewrite Hm. cbn [bind]. eauto. }
  destruct Ht as [t Ht]. rewrite Ht. cbn [bind].
  destruct (type_in t [NODEJS_TYPESCRIPT; REACT_FRONTEND]);
    rewrite ?Hm, He, Hs; cbn [bind]; eexists; repeat split.
Qed.

(** A failure of [json.load] on an existing manifest leaves the profiler
    as it is: nothing around the load catches it. *)
Lemma analyze_application_load_failure
  (fs : FileSystem) (name path : string) (t : ApplicationType) (e : exn) :
  name <> "ParadoxResolver" ->
  _determine_application_type fs name path = Ok t ->
  path_exists fs (path // "package.json") = Ok true ->
  load_json fs (path // "package.json") = Raise e ->
  _analyze_application fs name path = Raise e.
Proof.
  intros Hn Ht Hm Hl. unfold _analyze_application.
  rewrite Ht. cbn [bind].
  rewrite (determine_application_type_loads_manifest fs name path t Hn Ht).
  rewrite Hm. cbn [bind]. rewrite Hl. reflexivity.
Qed.

(** The route and schema readers, by contrast, absorb a failing read. *)
Lemma parse_routes_absorbs_read_failure (fs : FileSystem) (p : string) (e : exn) :
  read_text fs p = Raise e ->
  _parse_routes_from_file fs p = [] /\
  _parse_schema_file fs p = SchemaError e.
Proof.
  intros H. unfold _parse_routes_from_file, _parse_schema_file.
  rewrite H. split; reflexivity.
Qed.

(** C7. The claim asks that a manifest which fails to parse be treated as
    no manifest and that a record still be returned. On an application whose
    [package.json] exists and does not parse, the profiler returns no
    record: the decoding error leaves [_analyze_application], and
    [discover_applications] with it. *)
Theorem analyze_application_malformed_manifest_raises :
  path_exists fs_malformed_manifest ("/work" // "SpaceAgent" // "package.json")
    = Ok true /\
  load_json fs_malformed_manifest ("/work" // "SpaceAgent" // "package.json")
    = Raise JSONDecodeError /\
  _analyze_application fs_malformed_manifest "SpaceAgent" ("/work" // "SpaceAgent")
    = Raise JSONDecodeError /\
  discover_applications fs_malformed_manifest "/work" [] = Raise JSONDecodeError.
Proof.
  repeat split; reflexivity.
Qed.

(** ** Port extractor *)

Example extract_port_declared :
  _extract_port (Some (manifest_with_dev "PORT=4000 vite dev")) = Ok (Some 4000%Z).
Proof. reflexivity. Qed.

Example extract_port_absent :
  _extract_port (Some (manifest_with_dev "vite dev")) = Ok None.
Proof. reflexivity. Qed.

Example extract_port_not_a_number :
  _extract_port (Some (manifest_with_dev "PORT=abc vite")) = Ok None.
Proof. reflexivity. Qed.

Example extract_port_no_manifest : _extract_port None = Ok None.
Proof. reflexivity. Qed.

(** ** Dependency extractor *)

Lemma json_wf_dict_get (d : dict json) (k : string) (v : json) :
  fold_right (fun kv acc => json_wf (snd kv) /\ acc) True d ->
  dict_get d k = Some v ->
  json_wf v.
Proof.
  induction d as [| [k' v'] d IH]; simpl; intros Hwf Hget.
  - discriminate.
  - destruct Hwf as [Hv Hd].
    destruct (String.eqb k k').
    + injection Hget as <-. exact Hv.
    + auto.
Qed.

Lemma section_names_nodup (pj : json) (section : string) :
  json_wf pj -> NoDup (section_names pj section).
Proof.
  intros Hwf. unfold section_names.
  destruct pj as [| | | | | |d]; try constructor.
  destruct (dict_get d section) as [v |] eqn:Hget; [| constructor].
  destruct Hwf as [_ Hall].
  pose proof (json_wf_dict_get d section v Hall Hget) as Hv.
  destruct v; try constructor.
  exact (proj1 Hv).
Qed.

Lemma nodup_app_disjoint (A : Type) (l1 l2 : list A) :
  NoDup (l1 ++ l2) -> forall a, In a l1 -> ~ In a l2.
Proof.
  induction l1 as [| x l1 IH]; simpl; intros Hnd a Hin Hin2.
  - exact Hin.
  - inversion Hnd as [| ? ? Hx Hrest]; subst.
    destruct Hin as [-> | Hin].
    + apply Hx. apply in_or_app. now right.
    + exact (IH Hrest a Hin Hin2).
Qed.

(** On a manifest object whose sections are objects, the extractor returns
    the names of [dependencies] followed by those of [devDependencies]. *)
Lemma extract_dependencies_object (d : dict json) :
  section_is_object d "dependencies" = true ->
  section_is_object d "devDependencies" = true ->
  _extract_dependencies (Some (JObj d))
    = Ok (section_names (JObj d) "dependencies"
            ++ section_names (JObj d) "devDependencies").
Proof.
  unfold section_is_object, _extract_dependencies, section_names.
  intros H1 H2.
  destruct d as [| kv d'] eqn:Hd; [reflexivity |].
  rewrite <- Hd in *. replace (json_truthy (JObj d)) with true by (subst; reflexivity).
  simpl negb. cbv iota.
  unfold extend_with_sections, json_contains, json_getitem, dict_has, dict_item.
  destruct (dict_get d "dependencies") as [[| | | | | |f1] |];
    try discriminate;
    destruct (dict_get d "devDependencies") as [[| | | | | |f2] |];
    try discriminate; simpl; rewrite ?app_nil_r; reflexivity.
Qed.

(** C6, as stated, fails: a name declared in both sections is returned
    twice. *)
Lemma extract_dependencies_repeats_shared_name :
  _extract_dependencies (Some manifest_shared_name)
    = Ok ["typescript"; "typescript"] /\
  ~ NoDup ["typescript"; "typescript"] /\
  count_occ string_dec ["typescript"; "typescript"] "typescript" = 2.
Proof.
  split; [reflexivity | split; [| reflexivity]].
  intros H. inversion H as [| ? ? Hin _]. apply Hin. now left.
Qed.

(** C6, amended. For every manifest object whose dependency sections are
    objects, the extractor returns the names declared under [dependencies]
    followed by those declared under [devDependencies]: a name is in the
    result exactly when one of the two sections declares it, it occurs once
    for each section that declares it (twice when both do), and the result
    is free of repetition exactly when the two sections share no name. The
    manifest with express under [dependencies] and jest under
    [devDependencies] yields express, jest. *)
Theorem extract_dependencies_concatenates_sections (d : dict json) :
  json_wf (JObj d) ->
  section_is_object d "dependencies" = true ->
  section_is_object d "devDependencies" = true ->
  exists deps,
    _extract_dependencies (Some (JObj d)) = Ok deps /\
    deps = section_names (JObj d) "dependencies"
             ++ section_names (JObj d) "devDependencies" /\
    (forall n, In n deps <->
               In n (section_names (JObj d) "dependencies") \/
               In n (section_names (JObj d) "devDependencies")) /\
    (forall n, count_occ string_dec deps n =
               count_occ string_dec (section_names (JObj d) "dependencies") n +
               count_occ string_dec (section_names (JObj d) "devDependencies") n) /\
    (forall n, count_occ string_dec (section_names (JObj d) "dependencies") n <= 1 /\
               count_occ string_dec (section_names (JObj d) "devDependencies") n <= 1) /\
    (forall n, In n (section_names (JObj d) "dependencies") ->
               In n (section_names (JObj d) "devDependencies") ->
               count_occ string_dec deps n = 2) /\
    (NoDup deps <->
     forall n, In n (section_names (JObj d) "dependencies") ->
               ~ In n (section_names (JObj d) "devDependencies")) /\
    _extract_dependencies (Some manifest_express_jest) = Ok ["express"; "jest"].
Proof.
  intros Hwf H1 H2.
  pose proof (section_names_nodup (JObj d) "dependencies" Hwf) as N1.
  pose proof (section_names_nodup (JObj d) "devDependencies" Hwf) as N2.
  set (s1 := section_names (JObj d) "dependencies") in *.
  set (s2 := section_names (JObj d) "devDependencies") in *.
  exists (s1 ++ s2).
  split; [apply extract_dependencies_object; assumption |].
  split; [reflexivity |].
  split; [intros n; apply in_app_iff |].
  split; [intros n; apply count_occ_app |].
  split.
  { intros n. split; apply (proj1 (NoDup_count_occ string_dec _)); assumption. }
  split.
  { intros n I1 I2. rewrite count_occ_app.
    rewrite (proj1 (NoDup_count_occ' string_dec s1) N1 n I1).
    rewrite (proj1 (NoDup_count_occ' string_dec s2) N2 n I2).
    reflexivity. }
  split; [| reflexivity].
  split.
  - apply nodup_app_disjoint.
  - intros Hdis. apply NoDup_app; assumption.
Qed.

Lemma extract_dependencies_concatenates_sections_witness :
  exists deps,
    _extract_dependencies (Some manifest_shared_name) = Ok deps /\
    count_occ string_dec deps "typescript" = 2.
Proof.
  destruct (extract_dependencies_concatenates_sections
              [ ("dependencies", JObj [("typescript", JStr "5.0")]);
                ("devDependencies", JObj [("typescript", JStr "5.0")]) ])
    as [deps [Hrun [_ [_ [_ [_ [Htwice _]]]]]]].
  - simpl. repeat split; repeat constructor; simpl; intuition discriminate.
  - reflexivity.
  - reflexivity.
  - exists deps. split; [exact Hrun |].
    apply Htwice; simpl; auto.
Defined.

(** ** Route extractor *)

Lemma length_append (a b : string) :
  String.length (a ++ b) = String.length a + String.length b.
Proof.
  induction a as [| c a IH]; simpl; [reflexivity | now rewrite IH].
Qed.

Lemma append_assoc (a b c : string) : ((a ++ b) ++ c = a ++ (b ++ c))%string.
Proof.
  induction a as [| x a IH]; simpl; [reflexivity | now rewrite IH].
Qed.

Lemma strip_prefix_sound (p s r : string) :
  strip_prefix p s = Some r -> s = (p ++ r)%string.
Proof.
  revert s. induction p as [| a p IH]; simpl; intros s H.
  - now injection H as ->.
  - destruct s as [| b s]; [discriminate |].
    destruct (Ascii.eqb_spec a b) as [-> |]; [| discriminate].
    now rewrite (IH s H).
Qed.

Lemma strip_prefix_complete (p r : string) :
  strip_prefix p (p ++ r) = Some r.
Proof.
  induction p as [| a p IH]; simpl; [reflexivity |].
  now rewrite Ascii.eqb_refl.
Qed.

Lemma span_sound (f : ascii -> bool) (s a b : string) :
  span f s = (a, b) ->
  s = (a ++ b)%string /\
  forallb f (list_ascii_of_string a) = true /\
  match b with String c _ => f c = false | EmptyString => True end.
Proof.
  revert a b. induction s as [| c s IH]; simpl; intros a b H.
  - injection H as <- <-. repeat split.
  - destruct (f c) eqn:Hc.
    + destruct (span f s) as [a' b'] eqn:Hs. injection H as <- <-.
      destruct (IH a' b' eq_refl) as [-> [Ha Hb]].
      simpl. rewrite Hc. repeat split; assumption.
    + injection H as <- <-. repeat split. exact Hc.
Qed.

Lemma span_stops (f : ascii -> bool) (a b : string) :
  forallb f (list_ascii_of_string a) = true ->
  match b with String c _ => f c = false | EmptyString => True end ->
  span f (a ++ b) = (a, b).
Proof.
  induction a as [| c a IH]; simpl; intros Ha Hb.
  - destruct b as [| c b]; [reflexivity |]. simpl. now rewrite Hb.
  - apply andb_true_iff in Ha as [Hc Ha]. rewrite Hc, (IH Ha Hb). reflexivity.
Qed.

(** What a match of one pattern at the start of a text is: the head, a
    quote, a non-empty group without quotes, and a quote. *)
Lemma match_route_sound (head s cap rest : string) :
  match_route head s = Some (cap, rest) ->
  exists q1 q2,
    s = (head ++ String q1 (cap ++ String q2 rest))%string /\
    is_quote q1 = true /\ is_quote q2 = true /\
    cap <> EmptyString /\
    forallb (fun c => negb (is_quote c)) (list_ascii_of_string cap) = true.
Proof.
  unfold match_route. intros H.
  destruct (strip_prefix head s) as [[| q1 r] |] eqn:Hp; try discriminate.
  destruct (is_quote q1) eqn:Hq1; [| discriminate].
  destruct (span (fun c => negb (is_quote c)) r) as [[| c cap'] [| q2 rest']] eqn:Hs;
    try discriminate.
  destruct (is_quote q2) eqn:Hq2; [| discriminate].
  injection H as <- <-.
  apply strip_prefix_sound in Hp.
  apply span_sound in Hs as [-> [Hall _]].
  exists q1, q2. repeat split; auto. discriminate.
Qed.

(** Conversely, the pattern matches every text of that shape, and the
    group it finds is that one. *)
Lemma match_route_complete (head cap rest : string) (q1 q2 : ascii) :
  is_quote q1 = true -> is_quote q2 = true ->
  cap <> EmptyString ->
  forallb (fun c => negb (is_quote c)) (list_ascii_of_string cap) = true ->
  match_route head (head ++ String q1 (cap ++ String q2 rest)) = Some (cap, rest).
Proof.
  intros H1 H2 Hne Hall. unfold match_route.
  rewrite strip_prefix_complete, H1.
  rewrite (span_stops (fun c => negb (is_quote c)) cap (String q2 rest) Hall)
    by (now rewrite H2).
  destruct cap as [| c cap]; [congruence |].
  now rewrite H2.
Qed.

Lemma match_route_shorter (head s cap rest : string) :
  match_route head s = Some (cap, rest) ->
  String.length rest < String.length s.
Proof.
  intros H. apply match_route_sound in H as [q1 [q2 [-> _]]].
  rewrite length_append. simpl. rewrite length_append. simpl. lia.
Qed.

Lemma finditer_from_S (fuel : nat) (head : string) (pos : nat) (s : string) :
  finditer_from (S fuel) head pos s =
    match match_route head s with
    | Some (cap, rest) =>
        (pos, cap) :: finditer_from fuel head
                        (pos + (String.length s - String.length rest)) rest
    | None =>
        match s with
        | EmptyString => []
        | String _ s' => finditer_from fuel head (S pos) s'
        end
    end.
Proof. reflexivity. Qed.

(** The search never stops for want of fuel: any amount above the length
    of the text gives the same matches. *)
Lemma finditer_from_fuel (head : string) (fuel1 fuel2 pos : nat) (s : string) :
  String.length s < fuel1 -> String.length s < fuel2 ->
  finditer_from fuel1 head pos s = finditer_from fuel2 head pos s.
Proof.
  revert fuel2 pos s.
  induction fuel1 as [| fuel1 IH]; intros fuel2 pos s H1 H2; [lia |].
  destruct fuel2 as [| fuel2]; [lia |].
  rewrite !finditer_from_S.
  destruct (match_route head s) as [[cap rest] |] eqn:Hm.
  - pose proof (match_route_shorter _ _ _ _ Hm) as Hlt.
    f_equal. apply IH; lia.
  - destruct s as [| c s]; [reflexivity |]. simpl in H1, H2. apply IH; lia.
Qed.

(** One step of the search, free of fuel. *)
Lemma finditer_from_step (head : string) (pos : nat) (s : string) :
  finditer_from (S (String.length s)) head pos s =
    match match_route head s with
    | Some (cap, rest) =>
        (pos, cap) :: finditer_from (S (String.length rest)) head
                        (pos + (String.length s - String.length rest)) rest
    | None =>
        match s with
        | EmptyString => []
        | String _ s' => finditer_from (S (String.length s')) head (S pos) s'
        end
    end.
Proof.
  rewrite finditer_from_S.
  destruct (match_route head s) as [[cap rest] |] eqn:Hm.
  - pose proof (match_route_shorter _ _ _ _ Hm) as Hlt.
    f_equal. apply finditer_from_fuel; lia.
  - destruct s as [| c s]; [reflexivity |]. apply finditer_from_fuel; simpl; lia.
Qed.

Lemma increasing_from_weaken (lo lo' : nat) (ms : list (nat * string)) :
  lo' <= lo -> increasing_from lo ms -> increasing_from lo' ms.
Proof.
  destruct ms as [| [off cap] ms]; simpl; [trivial |].
  intros Hle [Hlo Hrest]. split; [lia | exact Hrest].
Qed.

(** The matches of one pattern are listed by increasing offset. *)
Lemma finditer_from_increasing (fuel : nat) (head : string) (pos : nat) (s : string) :
  increasing_from pos (finditer_from fuel head pos s).
Proof.
  revert pos s. induction fuel as [| fuel IH]; intros pos s; [exact I |].
  rewrite finditer_from_S.
  destruct (match_route head s) as [[cap rest] |] eqn:Hm.
  - pose proof (match_route_shorter _ _ _ _ Hm) as Hlt.
    simpl. split; [lia |].
    apply increasing_from_weaken
      with (lo := pos + (String.length s - String.length rest)); [lia | apply IH].
  - destruct s as [| c s]; [exact I |].
    apply increasing_from_weaken with (lo := S pos); [lia | apply IH].
Qed.

(** Each listed match is a match of the pattern at the listed offset. *)
Lemma finditer_from_occurs (fuel : nat) (head pre s : string) (off : nat) (cap : string) :
  In (off, cap) (finditer_from fuel head (String.length pre) s) ->
  occurs_at head cap off (pre ++ s).
Proof.
  revert pre s. induction fuel as [| fuel IH]; intros pre s; [intros [] |].
  rewrite finditer_from_S.
  destruct (match_route head s) as [[cap' rest] |] eqn:Hm.
  - destruct (match_route_sound _ _ _ _ Hm) as [q1 [q2 [Hs [H1 [H2 [Hne Hall]]]]]].
    intros [Heq | Hin].
    + injection Heq as <- <-.
      exists pre, q1, q2, rest. rewrite Hs. repeat split; assumption.
    + replace (pre ++ s)%string
        with ((pre ++ head ++ String q1 (cap' ++ String q2 EmptyString)) ++ rest)%string.
      * apply IH.
        replace (String.length (pre ++ head ++ String q1 (cap' ++ String q2 "")))
          with (String.length pre + (String.length s - String.length rest));
          [exact Hin |].
        rewrite Hs. rewrite !length_append. simpl. rewrite !length_append. simpl. lia.
      * rewrite Hs. rewrite !append_assoc. simpl. rewrite append_assoc. reflexivity.
  - destruct s as [| c s]; [intros [] |].
    intros Hin.
    replace (pre ++ String c s)%string with ((pre ++ String c EmptyString) ++ s)%string
      by (rewrite append_assoc; reflexivity).
    apply IH.
    replace (String.length (pre ++ String c "")) with (S (String.length pre));
      [exact Hin |].
    rewrite length_append. simpl. lia.
Qed.

Lemma finditer_from_groups (fuel : nat) (head : string) (pos pos' : nat) (s : string) :
  map snd (finditer_from fuel head pos s) = map snd (finditer_from fuel head pos' s).
Proof.
  revert pos pos' s. induction fuel as [| fuel IH]; intros pos pos' s; [reflexivity |].
  rewrite !finditer_from_S.
  destruct (match_route head s) as [[cap rest] |].
  - simpl. f_equal. apply IH.
  - destruct s as [| c s]; [reflexivity | apply IH].
Qed.

(** A text that starts with a call on a pattern of the list yields the
    path of that call first, then what the rest of the text yields. *)
Lemma findall_at_call (head path rest : string) (q : ascii) :
  is_quote q = true ->
  path <> EmptyString ->
  forallb (fun c => negb (is_quote c)) (list_ascii_of_string path) = true ->
  findall head (head ++ String q (path ++ String q rest)) = path :: findall head rest.
Proof.
  intros Hq Hne Hall. unfold findall, finditer.
  rewrite finditer_from_step.
  rewrite (match_route_complete head path rest q q Hq Hq Hne Hall).
  rewrite map_cons. cbv [snd]. f_equal. apply finditer_from_groups.
Qed.

Lemma append_split (a b c d : string) :
  (a ++ b = c ++ d)%string ->
  String.length a <= String.length c ->
  exists m, c = (a ++ m)%string /\ b = (m ++ d)%string.
Proof.
  revert c. induction a as [| x a IH]; intros c E Hlen.
  - exists c. split; [reflexivity | exact E].
  - destruct c as [| y c]; [simpl in Hlen; lia |].
    simpl in E. injection E as -> E. simpl in Hlen.
    destruct (IH c E) as [m [-> ->]]; [lia |].
    exists m. split; reflexivity.
Qed.

(** No match is lost: a place where the pattern matches is listed, unless
    it starts inside a match listed before it. *)
Lemma finditer_from_complete (fuel : nat) (head : string) (pos : nat)
  (m cap post : string) (q1 q2 : ascii) :
  String.length (m ++ head ++ String q1 (cap ++ String q2 post)) < fuel ->
  is_quote q1 = true -> is_quote q2 = true ->
  cap <> EmptyString ->
  forallb (fun c => negb (is_quote c)) (list_ascii_of_string cap) = true ->
  In (pos + String.length m, cap)
     (finditer_from fuel head pos (m ++ head ++ String q1 (cap ++ String q2 post))) \/
  exists off' cap',
    In (off', cap')
       (finditer_from fuel head pos (m ++ head ++ String q1 (cap ++ String q2 post))) /\
    off' < pos + String.length m /\
    pos + String.length m < off' + match_span head cap'.
Proof.
  intros Hfuel H1 H2 Hne Hfree.
  revert pos m Hfuel.
  induction fuel as [| fuel IH]; intros pos m Hfuel; [lia |].
  set (X := (head ++ String q1 (cap ++ String q2 post))%string) in *.
  rewrite finditer_from_S.
  destruct (match_route head (m ++ X)) as [[cap0 rest] |] eqn:Hm.
  - destruct m as [| c m'].
    + change (EmptyString ++ X)%string with X in Hm. unfold X in Hm.
      rewrite (match_route_complete head cap post q1 q2 H1 H2 Hne Hfree) in Hm.
      injection Hm as <- <-. left. left.
      simpl. now rewrite Nat.add_0_r.
    + pose proof (match_route_shorter _ _ _ _ Hm) as Hshort.
      destruct (match_route_sound _ _ _ _ Hm) as [q1' [q2' [Hs _]]].
      set (M := (head ++ String q1' (cap0 ++ String q2' EmptyString))%string).
      assert (HsM : (String c m' ++ X = M ++ rest)%string).
      { rewrite Hs. unfold M. rewrite !append_assoc. simpl.
        rewrite append_assoc. reflexivity. }
      assert (HlenM : String.length M = match_span head cap0).
      { unfold M, match_span. rewrite length_append. simpl.
        rewrite length_append. simpl. lia. }
      destruct (Nat.lt_ge_cases (String.length (String c m')) (String.length M))
        as [Hin | Hout].
      * right. exists pos, cap0. split; [now left |].
        rewrite <- HlenM. simpl String.length in *. lia.
      * destruct (append_split M rest (String c m') X (eq_sym HsM) Hout)
          as [m2 [Hm2 Hrest]].
        assert (Hpos : pos + (String.length (String c m' ++ X) - String.length rest)
                       = pos + String.length M).
        { rewrite HsM, length_append. lia. }
        rewrite Hpos.
        assert (Hoff : pos + String.length (String c m')
                       = pos + String.length M + String.length m2).
        { rewrite Hm2, length_append. lia. }
        rewrite Hoff, Hrest.
        destruct (IH (pos + String.length M) m2) as [Hfound | [off' [cap' [Hin' Hov]]]].
        { rewrite <- Hrest. lia. }
        -- left. right. exact Hfound.
        -- right. exists off', cap'. split; [right; exact Hin' | exact Hov].
  - destruct m as [| c m'].
    + change (EmptyString ++ X)%string with X in Hm. unfold X in Hm.
      rewrite (match_route_complete head cap post q1 q2 H1 H2 Hne Hfree) in Hm.
      discriminate.
    + change (String c m' ++ X)%string with (String c (m' ++ X)).
      simpl String.length.
      replace (pos + S (String.length m')) with (S pos + String.length m') by lia.
      apply IH. simpl in Hfuel. lia.
Qed.

(** C4. The claim asks that a call on any of the four verbs, on app or on
    router, yield its path. The pattern list has the four verbs for app
    and only get and post for router: a router.put or router.delete call
    yields nothing, where the same call on app yields its path. *)
Theorem router_put_and_delete_yield_nothing :
  _parse_routes_from_file (fs_file (call "router" "put" dq "/p")) "routes.ts" = [] /\
  _parse_routes_from_file (fs_file (call "router" "delete" dq "/p")) "routes.ts" = [] /\
  _parse_routes_from_file (fs_file (call "app" "put" dq "/p")) "routes.ts" = ["/p"] /\
  _parse_routes_from_file (fs_file (call "app" "delete" dq "/p")) "routes.ts" = ["/p"] /\
  _parse_routes_from_file (fs_file (call "router" "get" dq "/p")) "routes.ts" = ["/p"] /\
  _parse_routes_from_file (fs_file (call "router" "post" dq "/p")) "routes.ts" = ["/p"] /\
  existsb (String.eqb "router.put(") express_patterns = false /\
  existsb (String.eqb "router.delete(") express_patterns = false.
Proof.
  repeat split; reflexivity.
Qed.

(** C5, as stated, fails: with a router.post call at offset 0 and an
    app.get call at offset 28, the path of the app.get call comes first. *)
Lemma router_post_before_app_get_comes_last :
  finditer "router.post(" text_orders_then_users = [(0, "/api/orders")] /\
  finditer "app.get(" text_orders_then_users = [(28, "/api/users")] /\
  _parse_routes_from_file (fs_file text_orders_then_users) "routes.ts"
    = ["/api/users"; "/api/orders"] /\
  _parse_routes_from_file (fs_file text_orders_then_users) "routes.ts"
    <> ["/api/orders"; "/api/users"].
Proof.
  repeat split; try reflexivity.
  vm_compute. discriminate.
Qed.

(** C5, amended. The route extractor returns the matched paths grouped by
    pattern, the groups in the order app.get, app.post, app.put,
    app.delete, router.get, router.post, and the paths of one group in the
    order their call sites occur in the text. Each group holds the matches
    of its pattern found from left to right, none lost: every place where
    the pattern matches is returned unless it starts inside a match
    returned before it. A text with app.get on /api/users before
    router.post on /api/orders yields /api/users, /api/orders, and so does
    a text with the router.post call first; two app.get calls with a
    router.post call between them yield the two app.get paths, then the
    router.post path. *)
Theorem parse_routes_grouped_by_pattern
  (fs : FileSystem) (file_path content : string) :
  read_text fs file_path = Ok content ->
  _parse_routes_from_file fs file_path =
    findall "app.get(" content ++ findall "app.post(" content ++
    findall "app.put(" content ++ findall "app.delete(" content ++
    findall "router.get(" content ++ findall "router.post(" content /\
  (forall head,
     findall head content = map snd (finditer head content) /\
     increasing_from 0 (finditer head content) /\
     (forall off cap, In (off, cap) (finditer head content) ->
                      occurs_at head cap off content) /\
     (forall off cap, occurs_at head cap off content ->
        In (off, cap) (finditer head content) \/
        exists off' cap',
          In (off', cap') (finditer head content) /\
          off' < off /\ off < off' + match_span head cap')) /\
  _parse_routes_from_file (fs_file text_users_then_orders) "routes.ts"
    = ["/api/users"; "/api/orders"] /\
  _parse_routes_from_file (fs_file text_orders_then_users) "routes.ts"
    = ["/api/users"; "/api/orders"] /\
  _parse_routes_from_file (fs_file text_two_gets) "routes.ts"
    = ["/a"; "/b"; "/c"].
Proof.
  intros Hread. split; [| split; [| split; [| split]; reflexivity]].
  - unfold _parse_routes_from_file. rewrite Hread. simpl.
    rewrite app_nil_r. reflexivity.
  - intros head. split; [reflexivity | split; [| split]].
    + apply finditer_from_increasing.
    + intros off cap Hin.
      apply (finditer_from_occurs _ head EmptyString content off cap Hin).
    + intros off cap [pre [q1 [q2 [post [E [Hlen [H1 [H2 [Hne Hfree]]]]]]]]].
      subst off. unfold finditer. rewrite E.
      apply (finditer_from_complete _ head 0 pre cap post q1 q2);
        [lia | assumption ..].
Qed.

Lemma parse_routes_grouped_by_pattern_witness :
  _parse_routes_from_file (fs_file text_two_gets) "routes.ts" =
    findall "app.get(" text_two_gets ++
    findall "app.post(" text_two_gets ++
    findall "app.put(" text_two_gets ++
    findall "app.delete(" text_two_gets ++
    findall "router.get(" text_two_gets ++
    findall "router.post(" text_two_gets /\
  findall "app.get(" text_two_gets = ["/a"; "/b"].
Proof.
  split; [| reflexivity].
  exact (proj1 (parse_routes_grouped_by_pattern
                  (fs_file text_two_gets) "routes.ts"
                  text_two_gets eq_refl)).
Defined.

(** ** Pairing loop *)

Lemma mapM_app (A B : Type) (f : A -> result B) (l1 l2 : list A) :
  mapM f (l1 ++ l2) =
    (r1 <- mapM f l1 ;; r2 <- mapM f l2 ;; Ok (r1 ++ r2)).
Proof.
  induction l1 as [| x l1 IH]; simpl.
  - destruct (mapM f l2); reflexivity.
  - destruct (f x) as [y |]; simpl; [| reflexivity].
    rewrite IH. destruct (mapM f l1) as [r1 |]; simpl; [| reflexivity].
    destruct (mapM f l2); reflexivity.
Qed.

Lemma mapM_map (A B C : Type) (g : A -> B) (f : B -> result C) (l : list A) :
  mapM f (map g l) = mapM (fun x => f (g x)) l.
Proof.
  induction l as [| x l IH]; simpl; [reflexivity | now rewrite IH].
Qed.

Lemma skipn_past_prefix (A : Type) (prefix : list A) (x : A) (rest : list A) :
  skipn (List.length prefix + 1) (prefix ++ x :: rest) = rest.
Proof.
  induction prefix as [| y prefix IH]; simpl; [reflexivity | exact IH].
Qed.

Section Loop.

Variable Artifact : Type.
Variable generate_connector : ConnectorConfig -> result Artifact.
Variable applications : dict ApplicationMetadata.

Lemma inner_loop_run (source_app : string) (targets : list string)
  (acc : result (list Artifact)) :
  ~ In source_app targets ->
  fold_left (inner_step generate_connector applications source_app) targets acc =
    (generated <- acc ;;
     more <- mapM (pair_body generate_connector applications source_app) targets ;;
     Ok (generated ++ more)).
Proof.
  revert acc. induction targets as [| t targets IH]; intros acc Hnot.
  - destruct acc as [g |]; simpl; [now rewrite app_nil_r | reflexivity].
  - simpl fold_left. rewrite IH by (intros H; apply Hnot; now right).
    destruct acc as [g |]; [| reflexivity].
    assert (Hne : String.eqb source_app t = false).
    { apply String.eqb_neq. intros ->. apply Hnot. now left. }
    unfold inner_step, pair_body. simpl. rewrite Hne. simpl.
    destruct (_create_connector_config applications source_app t) as [c |];
      simpl; [| reflexivity].
    destruct (generate_connector c) as [p |]; simpl; [| reflexivity].
    destruct (mapM _ targets) as [more |]; simpl; [| reflexivity].
    now rewrite <- app_assoc.
Qed.

Lemma outer_loop_run (names rest prefix : list string)
  (acc : result (list Artifact)) :
  NoDup rest ->
  names = prefix ++ rest ->
  fold_left (fun acc (entry : nat * string) =>
               let (i, source_app) := entry in
               fold_left (inner_step generate_connector applications source_app) (skipn (i + 1) names) acc)
            (enumerate_from (List.length prefix) rest) acc =
    (generated <- acc ;;
     more <- mapM (fun p => pair_body generate_connector applications (fst p) (snd p)) (upper_pairs rest) ;;
     Ok (generated ++ more)).
Proof.
  revert prefix acc. induction rest as [| s rest IH]; intros prefix acc Hnd Hnames.
  - destruct acc as [g |]; simpl; [now rewrite app_nil_r | reflexivity].
  - inversion Hnd as [| ? ? Hnot Hnd']; subst.
    simpl enumerate_from. simpl fold_left.
    rewrite skipn_past_prefix.
    replace (S (List.length prefix)) with (List.length (prefix ++ [s]))
      by (rewrite List.length_app; simpl; lia).
    rewrite (IH (prefix ++ [s]) _ Hnd') by (now rewrite <- app_assoc).
    rewrite (inner_loop_run s rest acc Hnot).
    destruct acc as [g |]; [| reflexivity].
    simpl upper_pairs. rewrite mapM_app, mapM_map. simpl.
    destruct (mapM (pair_body generate_connector applications s) rest) as [r1 |]; simpl; [| reflexivity].
    destruct (mapM _ (upper_pairs rest)) as [r2 |]; simpl; [| reflexivity].
    now rewrite app_assoc.
Qed.

(** On a registry with distinct names the two loops run the body on the
    upper triangle of the names, in order. *)
Lemma generate_all_connectors_run :
  dict_wf applications ->
  generate_all_connectors generate_connector applications =
    mapM (fun p => pair_body generate_connector applications (fst p) (snd p)) (upper_pairs (keys applications)).
Proof.
  intros Hwf. unfold generate_all_connectors, enumerate.
  etransitivity;
    [exact (outer_loop_run (keys applications) (keys applications) []
              (Ok []) Hwf eq_refl) |].
  simpl. destruct (mapM _ _); reflexivity.
Qed.

End Loop.

(** *** The upper triangle of a list of distinct names *)

Lemma upper_pairs_length (l : list string) :
  2 * List.length (upper_pairs l) = List.length l * (List.length l - 1).
Proof.
  induction l as [| x l IH]; simpl; [reflexivity |].
  rewrite List.length_app, List.length_map. nia.
Qed.

Lemma upper_pairs_in (l : list string) (x y : string) :
  In (x, y) (upper_pairs l) -> In x l /\ In y l.
Proof.
  induction l as [| z l IH]; simpl; [intros [] |].
  intros H. apply in_app_or in H as [H | H].
  - apply in_map_iff in H as [t [Heq Ht]]. injection Heq as <- <-. auto.
  - destruct (IH H). auto.
Qed.

Lemma upper_pairs_distinct (l : list string) (x y : string) :
  NoDup l -> In (x, y) (upper_pairs l) -> x <> y.
Proof.
  induction l as [| z l IH]; simpl; [intros _ [] |].
  intros Hnd H. inversion Hnd as [| ? ? Hz Hl]; subst.
  apply in_app_or in H as [H | H].
  - apply in_map_iff in H as [t [Heq Ht]]. injection Heq as <- <-.
    intros ->. contradiction.
  - auto.
Qed.

Lemma upper_pairs_complete (l : list string) (x y : string) :
  In x l -> In y l -> x <> y ->
  In (x, y) (upper_pairs l) \/ In (y, x) (upper_pairs l).
Proof.
  induction l as [| z l IH]; simpl; [intros [] |].
  intros [-> | Hx] [-> | Hy] Hne.
  - congruence.
  - left. apply in_or_app. left. now apply in_map.
  - right. apply in_or_app. left. now apply in_map.
  - destruct (IH Hx Hy Hne); [left | right]; apply in_or_app; now right.
Qed.

Lemma nodup_map_pair (z : string) (l : list string) :
  NoDup l -> NoDup (map (pair z) l).
Proof.
  induction 1 as [| t l Ht Hl IH]; simpl; constructor; [| exact IH].
  intros H. apply in_map_iff in H as [t' [Heq Ht']].
  injection Heq as ->. contradiction.
Qed.

Lemma upper_pairs_nodup (l : list string) :
  NoDup l -> NoDup (upper_pairs l).
Proof.
  induction l as [| z l IH]; simpl; intros Hnd; [constructor |].
  inversion Hnd as [| ? ? Hz Hl]; subst.
  apply NoDup_app.
  - now apply nodup_map_pair.
  - auto.
  - intros [a b] Hin Hin'.
    apply in_map_iff in Hin as [t [Heq _]]. injection Heq as <- <-.
    apply upper_pairs_in in Hin' as [Hin' _]. contradiction.
Qed.

Lemma upper_pairs_one_orientation (l : list string) (x y : string) :
  NoDup l -> In (x, y) (upper_pairs l) -> ~ In (y, x) (upper_pairs l).
Proof.
  induction l as [| z l IH]; simpl; [intros _ [] |].
  intros Hnd H H'. inversion Hnd as [| ? ? Hz Hl]; subst.
  apply in_app_or in H as [H | H]; apply in_app_or in H' as [H' | H'].
  - apply in_map_iff in H as [t [Heq Ht]]. injection Heq as <- <-.
    apply in_map_iff in H' as [t' [Heq' Ht']]. injection Heq' as <- <-.
    contradiction.
  - apply in_map_iff in H as [t [Heq Ht]]. injection Heq as <- <-.
    apply upper_pairs_in in H' as [_ H']. contradiction.
  - apply in_map_iff in H' as [t [Heq Ht]]. injection Heq as <- <-.
    apply upper_pairs_in in H as [_ H]. contradiction.
  - exact (IH Hl H H').
Qed.

(** *** Configurations of the planned pairs *)

Lemma dict_get_of_key (V : Type) (d : dict V) (k : string) :
  In k (keys d) -> exists v, dict_get d k = Some v.
Proof.
  induction d as [| [k' v'] d IH]; simpl; [intros [] |].
  intros [-> | Hin].
  - rewrite String.eqb_refl. eauto.
  - destruct (String.eqb k k'); eauto.
Qed.

Lemma create_connector_config_found
  (applications : dict ApplicationMetadata) (x y : string)
  (a b : ApplicationMetadata) :
  dict_get applications x = Some a ->
  dict_get applications y = Some b ->
  _create_connector_config applications x y =
    Ok {| source_app := x;
          target_app := y;
          protocols := _determine_protocols a b;
          data_mappings := [];
          transformation_rules := [];
          sync_frequency := "real_time";
          error_handling := [] |}.
Proof.
  intros Ha Hb. unfold _create_connector_config, dict_item.
  rewrite Ha, Hb. reflexivity.
Qed.

Lemma create_connector_config_names
  (applications : dict ApplicationMetadata) (x y : string) (c : ConnectorConfig) :
  _create_connector_config applications x y = Ok c ->
  source_app c = x /\ target_app c = y.
Proof.
  unfold _create_connector_config, dict_item.
  destruct (dict_get applications x); [| discriminate].
  destruct (dict_get applications y); [| discriminate].
  simpl. intros H. injection H as <-. split; reflexivity.
Qed.

Lemma mapM_return (A : Type) (l : list A) : mapM (fun x => Ok x) l = Ok l.
Proof.
  induction l as [| x l IH]; simpl; [reflexivity | now rewrite IH].
Qed.

Lemma configs_of_pairs
  (applications : dict ApplicationMetadata) (pairs : list (string * string)) :
  (forall x y, In (x, y) pairs ->
               In x (keys applications) /\ In y (keys applications)) ->
  exists configs,
    map endpoints_of configs = pairs /\
    (forall c, In c configs ->
       _create_connector_config applications (source_app c) (target_app c) = Ok c) /\
    (forall (Artifact : Type) (gen : ConnectorConfig -> result Artifact),
       mapM (fun p => pair_body gen applications (fst p) (snd p)) pairs
       = mapM gen configs).
Proof.
  induction pairs as [| [x y] pairs IH]; intros Hkeys.
  - exists []. repeat split. intros c [].
  - destruct IH as [configs [Hmap [Hmade Hrun]]].
    { intros x' y' H. apply Hkeys. now right. }
    destruct (Hkeys x y (or_introl eq_refl)) as [Hx Hy].
    destruct (dict_get_of_key _ applications x Hx) as [a Ha].
    destruct (dict_get_of_key _ applications y Hy) as [b Hb].
    pose proof (create_connector_config_found applications x y a b Ha Hb) as Hc.
    match type of Hc with _ = Ok ?c => exists (c :: configs) end.
    split; [| split].
    + simpl. rewrite Hmap. reflexivity.
    + intros c [<- | Hin]; [exact Hc | auto].
    + intros Artifact gen. simpl. unfold pair_body at 1. simpl. rewrite Hc. simpl.
      rewrite Hrun. reflexivity.
Qed.

(** The configurations planned for a registry with distinct names: one
    for each pair of the upper triangle of its names, in that order, and
    the generation agent is run on exactly these. *)
Lemma planned_configs_shape (applications : dict ApplicationMetadata) :
  dict_wf applications ->
  exists configs,
    planned_configs applications = Ok configs /\
    map endpoints_of configs = upper_pairs (keys applications) /\
    (forall c, In c configs ->
       _create_connector_config applications (source_app c) (target_app c) = Ok c) /\
    (forall (Artifact : Type) (gen : ConnectorConfig -> result Artifact),
       generate_all_connectors gen applications = mapM gen configs).
Proof.
  intros Hwf.
  destruct (configs_of_pairs applications (upper_pairs (keys applications)))
    as [configs [Hmap [Hmade Hrun]]].
  { intros x y. apply upper_pairs_in. }
  exists configs. split; [| split; [exact Hmap | split; [exact Hmade |]]].
  - unfold planned_configs.
    rewrite (generate_all_connectors_run _ _ applications Hwf).
    rewrite Hrun. apply mapM_return.
  - intros Artifact gen.
    rewrite (generate_all_connectors_run _ _ applications Hwf).
    apply Hrun.
Qed.

Lemma registry3_wf : dict_wf registry3.
Proof.
  unfold dict_wf. simpl.
  repeat constructor; simpl; intuition discriminate.
Qed.

(** C2. For every registry (a dict, so with distinct names) the loop
    builds exactly |R|(|R|-1)/2 configurations and runs the generation agent
    on exactly these: each joins two distinct names of the registry, every
    two distinct names are joined by one of them, and no two of them join
    the same unordered pair. *)
Theorem generate_all_connectors_one_per_pair
  (applications : dict ApplicationMetadata) :
  dict_wf applications ->
  exists configs,
    planned_configs applications = Ok configs /\
    (forall (Artifact : Type) (gen : ConnectorConfig -> result Artifact),
       generate_all_connectors gen applications = mapM gen configs) /\
    List.length configs
      = List.length applications * (List.length applications - 1) / 2 /\
    (forall c, In c configs ->
       In (source_app c) (keys applications) /\
       In (target_app c) (keys applications) /\
       source_app c <> target_app c) /\
    (forall x y, In x (keys applications) -> In y (keys applications) -> x <> y ->
       exists c, In c configs /\ connects c x y) /\
    (forall i j ci cj,
       nth_error configs i = Some ci -> nth_error configs j = Some cj ->
       connects ci (source_app cj) (target_app cj) -> i = j).
Proof.
  intros Hwf.
  destruct (planned_configs_shape applications Hwf)
    as [configs [Hplan [Hmap [_ Hrun]]]].
  exists configs.
  assert (Hin : forall c, In c configs ->
                          In (source_app c, target_app c)
                             (upper_pairs (keys applications))).
  { intros c Hc. rewrite <- Hmap.
    change (source_app c, target_app c) with (endpoints_of c).
    now apply in_map. }
  assert (Hnth : forall i c, nth_error configs i = Some c ->
                             nth_error (upper_pairs (keys applications)) i
                             = Some (source_app c, target_app c)).
  { intros i c Hc. rewrite <- Hmap.
    rewrite nth_error_map, Hc. reflexivity. }
  split; [exact Hplan | split; [exact Hrun | split; [| split; [| split]]]].
  - pose proof (upper_pairs_length (keys applications)) as Hlen.
    rewrite <- Hmap in Hlen. unfold keys in Hlen. rewrite !List.length_map in Hlen.
    rewrite <- Hlen, Nat.mul_comm. symmetry. apply Nat.div_mul. discriminate.
  - intros c Hc. pose proof (Hin c Hc) as Hp.
    destruct (upper_pairs_in _ _ _ Hp) as [Hs Ht].
    repeat split; try assumption.
    exact (upper_pairs_distinct _ _ _ Hwf Hp).
  - intros x y Hx Hy Hne.
    destruct (upper_pairs_complete _ _ _ Hx Hy Hne) as [Hp | Hp];
      rewrite <- Hmap in Hp; apply in_map_iff in Hp as [c [Heq Hc]];
      injection Heq as Hs Ht; exists c; split; try assumption;
      [left | right]; auto.
  - intros i j ci cj Hi Hj Hconn.
    pose proof (Hnth i ci Hi) as Pi. pose proof (Hnth j cj Hj) as Pj.
    destruct Hconn as [[Hs Ht] | [Hs Ht]].
    + rewrite Hs, Ht, <- Pj in Pi.
      refine (proj1 (NoDup_nth_error _) (upper_pairs_nodup _ Hwf) i j _ Pi).
      apply nth_error_Some. rewrite Pi, Pj. discriminate.
    + exfalso. rewrite Hs, Ht in Pi.
      apply nth_error_In in Pi. apply nth_error_In in Pj.
      exact (upper_pairs_one_orientation _ _ _ Hwf Pj Pi).
Qed.

Lemma generate_all_connectors_one_per_pair_witness :
  exists configs,
    planned_configs registry3 = Ok configs /\ List.length configs = 3.
Proof.
  destruct (generate_all_connectors_one_per_pair registry3 registry3_wf)
    as [configs [Hplan [_ [Hlen _]]]].
  exists configs. split; [exact Hplan | exact Hlen].
Defined.

(** C9, as stated, fails: the cadence of a planned configuration is the
    string real_time, not continuous. *)
Lemma planned_config_is_not_continuous :
  exists c,
    _create_connector_config registry3 "SpaceAgent" "ParadoxResolver" = Ok c /\
    sync_frequency c = "real_time" /\
    sync_frequency c <> "continuous".
Proof.
  eexists. split; [reflexivity |]. split; [reflexivity | discriminate].
Qed.

(** C9, amended. Every configuration the planner builds for a pair (x, y)
    has source x, target y, the protocols the selector returns on the
    records of x and y, no data mapping, no transformation rule, and the
    cadence real_time. *)
Theorem planned_configs_fields (applications : dict ApplicationMetadata) :
  dict_wf applications ->
  (forall x y a b,
     dict_get applications x = Some a ->
     dict_get applications y = Some b ->
     exists c,
       _create_connector_config applications x y = Ok c /\
       source_app c = x /\ target_app c = y /\
       protocols c = _determine_protocols a b /\
       data_mappings c = [] /\ transformation_rules c = [] /\
       sync_frequency c = "real_time") /\
  exists configs,
    planned_configs applications = Ok configs /\
    forall c, In c configs ->
      exists a b,
        dict_get applications (source_app c) = Some a /\
        dict_get applications (target_app c) = Some b /\
        protocols c = _determine_protocols a b /\
        data_mappings c = [] /\ transformation_rules c = [] /\
        sync_frequency c = "real_time".
Proof.
  intros Hwf. split.
  - intros x y a b Ha Hb. eexists. split.
    + exact (create_connector_config_found applications x y a b Ha Hb).
    + repeat split.
  - destruct (planned_configs_shape applications Hwf)
      as [configs [Hplan [_ [Hmade _]]]].
    exists configs. split; [exact Hplan |].
    intros c Hc. pose proof (Hmade c Hc) as Hmk.
    unfold _create_connector_config, dict_item in Hmk.
    destruct (dict_get applications (source_app c)) as [a |]; [| discriminate].
    destruct (dict_get applications (target_app c)) as [b |]; [| discriminate].
    simpl in Hmk. injection Hmk as Hmk.
    exists a, b. rewrite <- Hmk. simpl. repeat split.
Qed.

Lemma planned_configs_fields_witness :
  exists configs,
    planned_configs registry3 = Ok configs /\
    Forall (fun c => sync_frequency c = "real_time") configs.
Proof.
  destruct (proj2 (planned_configs_fields registry3 registry3_wf))
    as [configs [Hplan Hall]].
  exists configs. split; [exact Hplan |].
  apply Forall_forall. intros c Hc.
  destruct (Hall c Hc) as [a [b [_ [_ [_ [_ [_ Hsync]]]]]]]. exact Hsync.
Defined.

(** * Further properties of the code *)

(** ** Selector and classification *)

Lemma truthy_iff (A : Type) (l : list A) : truthy l = true <-> l <> [].
Proof.
  destruct l; simpl; split; intros H; congruence.
Qed.

(** REST_API is selected exactly when one of the two records has a route
    or, as the fallback, when the source is not live; the result has at
    most two tags and REST_API, when present, comes first. *)
Theorem determine_protocols_rest_rule (a b : ApplicationMetadata) :
  (In REST_API (_determine_protocols a b) <->
     api_endpoints a <> [] \/ api_endpoints b <> [] \/ live (type a) = false) /\
  List.length (_determine_protocols a b) <= 2 /\
  (In REST_API (_determine_protocols a b) ->
   hd_error (_determine_protocols a b) = Some REST_API).
Proof.
  rewrite determine_protocols_cases.
  pose proof (truthy_iff _ (api_endpoints a)) as Ta.
  pose proof (truthy_iff _ (api_endpoints b)) as Tb.
  destruct (truthy (api_endpoints a)); destruct (truthy (api_endpoints b));
    destruct (live (type a)); (split; [split | split]); simpl; intros;
    first
      [ lia
      | reflexivity
      | left; apply Ta; reflexivity
      | right; left; apply Tb; reflexivity
      | right; right; reflexivity
      | left; reflexivity
      | exfalso;
        match goal with
        | H : _ \/ _ \/ _ |- _ =>
            destruct H as [H | [H | H]];
            [apply Ta in H | apply Tb in H |]; discriminate
        | H : _ \/ False |- _ => destruct H as [H | []]; discriminate
        end ].
Qed.

Lemma determine_protocols_rest_rule_witness :
  hd_error (_determine_protocols paradox probe) = Some REST_API.
Proof.
  apply (proj2 (proj2 (determine_protocols_rest_rule paradox probe))).
  apply (proj1 (determine_protocols_rest_rule paradox probe)).
  right. right. reflexivity.
Defined.

(** The classifier never answers EXPRESS_BACKEND, answers PYTHON_STREAMLIT
    exactly for the name ParadoxResolver, and answers REACT_FRONTEND only
    when a manifest file is there. *)
(** When the classifier returns it never answers EXPRESS_BACKEND, answers
    PYTHON_STREAMLIT exactly for the name ParadoxResolver, and answers
    REACT_FRONTEND only when a manifest file is there; for the name
    ParadoxResolver it returns without a look at the file system. *)
Theorem determine_application_type_range (fs : FileSystem) (name path : string) :
  (forall t, _determine_application_type fs name path = Ok t ->
     t <> EXPRESS_BACKEND /\
     (t = PYTHON_STREAMLIT <-> name = "ParadoxResolver") /\
     (t = REACT_FRONTEND ->
      path_exists fs (path // "package.json") = Ok true)) /\
  (name = "ParadoxResolver" ->
   _determine_application_type fs name path = Ok PYTHON_STREAMLIT).
Proof.
  unfold _determine_application_type, or_else.
  destruct (String.eqb_spec name "ParadoxResolver") as [-> | Hne].
  - split; [| reflexivity].
    intros t H. injection H as <-.
    repeat split; try discriminate; auto.
  - split; [| contradiction].
    intros t.
    destruct (path_exists fs (path // "package.json")) as [[|] |]; cbn [bind];
      try discriminate.
    + destruct (path_exists fs (path // "src" // "components")) as [[|] |];
        cbn [bind]; try discriminate.
      * intros H. injection H as <-.
        repeat split; try discriminate; try contradiction; auto.
      * destruct (path_exists fs (path // "client" // "src")) as [[|] |];
          cbn [bind]; try discriminate; intros H; injection H as <-;
          repeat split; try discriminate; try contradiction; auto.
    + intros H. injection H as <-.
      repeat split; try discriminate; try contradiction; auto.
Qed.

Lemma determine_application_type_range_witness :
  path_exists fs_frontend ("/work/SpaceAgent" // "package.json") = Ok true.
Proof.
  exact (proj2 (proj2 (proj1 (determine_application_type_range fs_frontend
                                "SpaceAgent" "/work/SpaceAgent")
                         REACT_FRONTEND eq_refl)) eq_refl).
Defined.

(** ** Port extractor *)

Lemma search_port_eq (s : string) :
  search_port s =
    match strip_prefix "PORT=" s with
    | Some r =>
        match fst (span is_digit r) with
        | EmptyString =>
            match s with EmptyString => None | String _ s' => search_port s' end
        | ds => Some ds
        end
    | None =>
        match s with EmptyString => None | String _ s' => search_port s' end
    end.
Proof. destruct s; reflexivity. Qed.

Lemma str_contains_eq (p s : string) :
  str_contains p s =
    match strip_prefix p s with
    | Some _ => true
    | None =>
        match s with EmptyString => false | String _ s' => str_contains p s' end
    end.
Proof. destruct s; reflexivity. Qed.

Lemma search_port_without_marker (s : string) :
  str_contains "PORT=" s = false -> search_port s = None.
Proof.
  induction s as [| c s IH]; [reflexivity |].
  rewrite str_contains_eq, search_port_eq.
  destruct (strip_prefix "PORT=" (String c s)); [discriminate | exact IH].
Qed.

(** On a manifest object of the usual shape the port is the integer value
    of the digits that the search finds in the dev script. *)
Lemma extract_port_object (d : dict json) :
  scripts_well_shaped d = true ->
  _extract_port (Some (JObj d))
  = match search_port (dev_script_of d) with
    | Some digits => value <- int_of_str digits ;; Ok (Some value)
    | None => Ok None
    end.
Proof.
  unfold scripts_well_shaped, dev_script_of, _extract_port.
  intros Hshape.
  destruct d as [| kv d'] eqn:Hd; [reflexivity |].
  rewrite <- Hd in *.
  replace (json_truthy (JObj d)) with true by (subst; reflexivity).
  cbn [negb]. cbv iota.
  unfold json_contains, json_getitem, dict_has, dict_item.
  destruct (dict_get d "scripts") as [[| | | | | | sc] |]; try discriminate;
    [| reflexivity].
  cbn [bind negb]. cbv iota. cbn [bind json_get].
  destruct (dict_get sc "dev") as [[| | | | s | |] |]; try discriminate.
  - cbn [bind]. destruct (str_contains "PORT=" s) eqn:Hc; [reflexivity |].
    now rewrite (search_port_without_marker s Hc).
  - reflexivity.
Qed.

Lemma int_of_digits_nonneg (ds : string) : (0 <= int_of_digits ds)%Z.
Proof.
  unfold int_of_digits.
  assert (H : forall l acc, (0 <= acc)%Z ->
            (0 <= fold_left (fun acc c =>
                               (10 * acc + Z.of_nat (nat_of_ascii c - 48))%Z)
                            l acc)%Z).
  { induction l as [| c l IH]; cbn [fold_left]; intros acc Hacc; [exact Hacc |].
    apply IH. pose proof (Nat2Z.is_nonneg (nat_of_ascii c - 48)). lia. }
  apply H. lia.
Qed.

(** [int] of a digit string returns its value when the string has at most
    4300 digits and raises ValueError otherwise. *)
Lemma int_of_str_cases (ds : string) :
  (String.length ds <= 4300 /\ int_of_str ds = Ok (int_of_digits ds)) \/
  (4300 < String.length ds /\ int_of_str ds = Raise ValueError).
Proof.
  unfold int_of_str, int_max_str_digits.
  destruct (Nat.leb_spec (String.length ds) 4300); [left | right]; auto.
Qed.

Lemma span_digit_head (c : ascii) (r : string) :
  fst (span is_digit (String c r)) = EmptyString -> is_digit c = false.
Proof.
  simpl. destruct (is_digit c); [| reflexivity].
  destruct (span is_digit r). discriminate.
Qed.

(** What a successful search has found: the leftmost place where PORT= is
    followed by a digit, and the whole run of digits there. *)
Lemma search_port_sound (s ds : string) :
  search_port s = Some ds ->
  exists pre rest : string,
    s = (pre ++ "PORT=" ++ ds ++ rest)%string /\
    ds <> EmptyString /\
    forallb is_digit (list_ascii_of_string ds) = true /\
    match rest with String c _ => is_digit c = false | EmptyString => True end /\
    (forall (p1 : string) (c : ascii) (r1 : string),
        s = (p1 ++ "PORT=" ++ String c r1)%string ->
        String.length p1 < String.length pre -> is_digit c = false).
Proof.
  induction s as [| c0 s IH]; [discriminate |].
  rewrite search_port_eq. intros H.
  assert (Hnext :
    search_port s = Some ds ->
    (forall r, strip_prefix "PORT=" (String c0 s) = Some r ->
               fst (span is_digit r) = EmptyString) ->
    exists pre rest : string,
      String c0 s = (pre ++ "PORT=" ++ ds ++ rest)%string /\
      ds <> EmptyString /\
      forallb is_digit (list_ascii_of_string ds) = true /\
      match rest with String c _ => is_digit c = false | EmptyString => True end /\
      (forall (p1 : string) (c : ascii) (r1 : string),
          String c0 s = (p1 ++ "PORT=" ++ String c r1)%string ->
          String.length p1 < String.length pre -> is_digit c = false)).
  { intros Hs Hhere.
    destruct (IH Hs) as [pre [rest [E [Hne [Hd [Hr Hleft]]]]]].
    exists (String c0 pre), rest.
    split; [simpl; now rewrite E |].
    repeat split; try assumption.
    intros p1 c r1 Hsplit Hlen.
    destruct p1 as [| c1 p1].
    - apply span_digit_head with (r := r1). apply Hhere.
      rewrite Hsplit. apply (strip_prefix_complete "PORT=" (String c r1)).
    - simpl in Hsplit. injection Hsplit as _ Hsplit.
      apply (Hleft p1 c r1 Hsplit). simpl in Hlen. lia. }
  destruct (strip_prefix "PORT=" (String c0 s)) as [r |] eqn:Hp.
  - destruct (span is_digit r) as [ds0 rest] eqn:Hspan. simpl fst in H.
    destruct ds0 as [| d ds0].
    + apply Hnext; [exact H |].
      intros r' Hr'. injection Hr' as <-. now rewrite Hspan.
    + injection H as <-.
      apply strip_prefix_sound in Hp.
      destruct (span_sound _ _ _ _ Hspan) as [Hr [Hall Hstop]].
      exists EmptyString, rest.
      split; [rewrite Hp, Hr; reflexivity |].
      repeat split; try assumption; try discriminate.
      intros p1 c r1 _ Hlen. simpl in Hlen. lia.
  - apply Hnext; [exact H | intros r' Hr'; discriminate].
Qed.

(** The search fails exactly when no PORT= in the text is followed by a
    digit. *)
Lemma search_port_none_iff (s : string) :
  search_port s = None <->
  forall (pre : string) (c : ascii) (rest : string),
    s = (pre ++ "PORT=" ++ String c rest)%string -> is_digit c = false.
Proof.
  split.
  - induction s as [| c0 s IH]; intros H pre c rest Hsplit.
    + destruct pre; discriminate.
    + rewrite search_port_eq in H.
      destruct pre as [| c1 pre].
      * assert (Hp : strip_prefix "PORT=" (String c0 s) = Some (String c rest))
          by (rewrite Hsplit; exact (strip_prefix_complete "PORT=" (String c rest))).
        rewrite Hp in H.
        destruct (fst (span is_digit (String c rest))) eqn:Hf; [| discriminate].
        exact (span_digit_head c rest Hf).
      * simpl in Hsplit. injection Hsplit as _ Hsplit.
        apply (IH) with (pre := pre) (rest := rest); [| exact Hsplit].
        destruct (strip_prefix "PORT=" (String c0 s)) as [r |]; [| exact H].
        destruct (fst (span is_digit r)); [exact H | discriminate].
  - intros Hno. destruct (search_port s) as [ds |] eqn:Hs; [| reflexivity].
    destruct (search_port_sound s ds Hs) as [pre [rest [E [Hne [Hd _]]]]].
    destruct ds as [| d ds]; [congruence |].
    simpl in Hd. apply andb_true_iff in Hd as [Hd _].
    rewrite (Hno pre d (ds ++ rest)%string) in Hd; [discriminate | exact E].
Qed.

(** A port is returned only for a manifest object whose [scripts] entry is
    an object with a string under [dev], and it is the value of what the
    search finds there. *)
Lemma extract_port_some_shape (package_json : option json) (z : Z) :
  _extract_port package_json = Ok (Some z) ->
  exists (d sc : dict json) (s ds : string),
    package_json = Some (JObj d) /\
    dict_get d "scripts" = Some (JObj sc) /\
    dict_get sc "dev" = Some (JStr s) /\
    search_port s = Some ds /\
    int_of_str ds = Ok z.
Proof.
  unfold _extract_port. intros H.
  destruct package_json as [pj |]; [| discriminate].
  destruct (negb (json_truthy pj)); [discriminate |].
  destruct pj as [| b | n | q | s | l | d]; try discriminate.
  - cbn [json_contains bind] in H.
    destruct (negb (str_contains "scripts" s)); discriminate.
  - cbn [json_contains bind] in H.
    destruct (negb (existsb _ l)); discriminate.
  - cbn [json_contains json_getitem bind] in H.
    unfold dict_has, dict_item in H.
    destruct (dict_get d "scripts") as [v |] eqn:Hscripts; [| discriminate].
    cbn [negb bind] in H. cbv iota in H.
    destruct v as [| | | | | | sc]; try discriminate.
    cbn [json_get bind] in H.
    destruct (dict_get sc "dev") as [dv |] eqn:Hdev.
    + destruct dv as [| | | | s | l | o]; try discriminate.
      * cbn [json_contains bind] in H.
        destruct (str_contains "PORT=" s); [| discriminate].
        destruct (search_port s) as [ds |] eqn:Hs; [| discriminate].
        destruct (int_of_str ds) as [v |] eqn:Hint; cbn [bind] in H;
          [| discriminate].
        injection H as <-. exists d, sc, s, ds. auto.
      * cbn [json_contains bind] in H.
        destruct (existsb _ l); discriminate.
      * cbn [json_contains bind] in H.
        destruct (dict_has o "PORT="); discriminate.
    + cbn [json_contains bind] in H.
      destruct (str_contains "PORT=" ""); discriminate.
Qed.

(** A port that the extractor returns is never negative, and it is the
    value of the digits that follow the leftmost PORT= followed by a digit
    in the dev script of the manifest; these digits are at most 4300, the
    longest run that the conversion to an integer accepts. *)
Theorem extract_port_returns_leftmost_port (package_json : option json) (z : Z) :
  _extract_port package_json = Ok (Some z) ->
  (0 <= z)%Z /\
  exists (d sc : dict json) (s pre ds rest : string),
    package_json = Some (JObj d) /\
    dict_get d "scripts" = Some (JObj sc) /\
    dict_get sc "dev" = Some (JStr s) /\
    s = (pre ++ "PORT=" ++ ds ++ rest)%string /\
    ds <> EmptyString /\
    String.length ds <= 4300 /\
    forallb is_digit (list_ascii_of_string ds) = true /\
    match rest with String c _ => is_digit c = false | EmptyString => True end /\
    z = int_of_digits ds /\
    (forall (p1 : string) (c : ascii) (r1 : string),
        s = (p1 ++ "PORT=" ++ String c r1)%string ->
        String.length p1 < String.length pre -> is_digit c = false).
Proof.
  intros H.
  destruct (extract_port_some_shape package_json z H)
    as [d [sc [s [ds [Hpj [Hscripts [Hdev [Hsearch Hint]]]]]]]].
  destruct (search_port_sound s ds Hsearch)
    as [pre [rest [E [Hne [Hd [Hr Hleft]]]]]].
  destruct (int_of_str_cases ds) as [[Hlen Hv] | [_ Hv]];
    rewrite Hv in Hint; [| discriminate].
  injection Hint as <-.
  split.
  - apply int_of_digits_nonneg.
  - exists d, sc, s, pre, ds, rest. repeat split; assumption.
Qed.

Lemma extract_port_returns_leftmost_port_witness :
  (0 <= 4000)%Z.
Proof.
  exact (proj1 (extract_port_returns_leftmost_port
                  (Some manifest_full) 4000%Z eq_refl)).
Defined.

(** On a manifest object of the usual shape the extractor returns no port
    exactly when no PORT= of the dev script is followed by a digit, and it
    raises exactly when the run of digits that the search finds is longer
    than 4300, with ValueError. *)
Theorem extract_port_none_iff_no_digits (d : dict json) :
  scripts_well_shaped d = true ->
  (_extract_port (Some (JObj d)) = Ok None <->
   forall (pre : string) (c : ascii) (rest : string),
     dev_script_of d = (pre ++ "PORT=" ++ String c rest)%string ->
     is_digit c = false) /\
  (forall e,
     _extract_port (Some (JObj d)) = Raise e <->
     e = ValueError /\
     exists ds, search_port (dev_script_of d) = Some ds /\
                4300 < String.length ds).
Proof.
  intros Hshape. rewrite (extract_port_object d Hshape).
  rewrite <- search_port_none_iff.
  destruct (search_port (dev_script_of d)) as [ds |].
  - destruct (int_of_str_cases ds) as [[Hlen Hv] | [Hlen Hv]]; rewrite Hv;
      cbn [bind].
    + split; [split; discriminate |].
      intros e. split; [discriminate |].
      intros [_ [ds' [Hds Hlong]]]. injection Hds as <-. lia.
    + split; [split; discriminate |].
      intros e. split.
      * intros H. injection H as <-. split; [reflexivity |].
        exists ds. split; [reflexivity | exact Hlen].
      * intros [-> _]. reflexivity.
  - split; [split; reflexivity |].
    intros e. split; [discriminate |].
    intros [_ [ds [Hds _]]]. discriminate.
Qed.

Lemma extract_port_none_iff_no_digits_witness :
  _extract_port (Some (manifest_with_dev "PORT=abc vite")) = Ok None /\
  _extract_port (Some (manifest_with_dev ("PORT=" ++ long_digits))) = Raise ValueError.
Proof.
  split.
  - apply (proj1 (extract_port_none_iff_no_digits
                    [ ("name", JStr "space-agent");
                      ("scripts", JObj [("dev", JStr "PORT=abc vite")]) ]
                    eq_refl)).
    apply search_port_none_iff. reflexivity.
  - apply (proj2 (extract_port_none_iff_no_digits
                    [ ("name", JStr "space-agent");
                      ("scripts", JObj [("dev", JStr ("PORT=" ++ long_digits))]) ]
                    eq_refl)).
    split; [reflexivity |].
    exists long_digits. split; [vm_compute; reflexivity | vm_compute; lia].
Defined.

(** Manifests that make the port extractor raise: a [scripts] entry that is
    not an object gives AttributeError, and a [dev] entry that is null, a
    boolean or a number gives TypeError. An absent or empty manifest and a
    manifest without [scripts] give no port. *)
Theorem extract_port_error_cases (d : dict json) :
  d <> [] ->
  (forall v, dict_get d "scripts" = Some v ->
             match v with JObj _ => False | _ => True end ->
             _extract_port (Some (JObj d)) = Raise AttributeError) /\
  (forall sc v, dict_get d "scripts" = Some (JObj sc) ->
                dict_get sc "dev" = Some v ->
                match v with
                | JNull | JBool _ | JInt _ | JFloat _ => True
                | _ => False
                end ->
                _extract_port (Some (JObj d)) = Raise TypeError) /\
  (dict_get d "scripts" = None -> _extract_port (Some (JObj d)) = Ok None) /\
  _extract_port None = Ok None /\
  _extract_port (Some (JObj [])) = Ok None.
Proof.
  intros Hne.
  assert (Ht : json_truthy (JObj d) = true) by (destruct d; [congruence | reflexivity]).
  unfold _extract_port. rewrite Ht. cbn [negb]. cbv iota.
  cbn [json_contains json_getitem bind]. unfold dict_has, dict_item.
  split; [| split; [| split; [| split; reflexivity]]].
  - intros v Hv Hshape. rewrite Hv. cbn [negb bind]. cbv iota.
    destruct v; try reflexivity. contradiction.
  - intros sc v Hsc Hv Hshape. rewrite Hsc. cbn [negb bind json_get]. cbv iota.
    rewrite Hv. destruct v; try contradiction; reflexivity.
  - intros Hnone. rewrite Hnone. reflexivity.
Qed.

Lemma extract_port_error_cases_witness :
  _extract_port (Some (JObj [("scripts", JStr "vite dev")])) = Raise AttributeError.
Proof.
  refine (proj1 (extract_port_error_cases [("scripts", JStr "vite dev")] _)
            (JStr "vite dev") eq_refl I).
  discriminate.
Defined.


(** ** Profiler *)

Lemma determine_application_type_live
  (fs : FileSystem) (name path : string) (t : ApplicationType) :
  _determine_application_type fs name path = Ok t ->
  live t = negb (String.eqb name "ParadoxResolver").
Proof.
  unfold _determine_application_type, or_else.
  destruct (String.eqb name "ParadoxResolver").
  - intros H. injection H as <-. reflexivity.
  - destruct (path_exists fs (path // "package.json")) as [[|] |]; cbn [bind];
      try discriminate.
    + destruct (path_exists fs (path // "src" // "components")) as [[|] |];
        cbn [bind]; try discriminate.
      * intros H. injection H as <-. reflexivity.
      * destruct (path_exists fs (path // "client" // "src")) as [[|] |];
          cbn [bind]; try discriminate; intros H; injection H as <-; reflexivity.
    + intros H. injection H as <-. reflexivity.
Qed.

(** The manifest that the profiler hands to the two manifest extractors. *)
Lemma analyze_application_steps
  (fs : FileSystem) (n path : string) :
  _analyze_application fs n path =
    (app_type <- _determine_application_type fs n path ;;
     package_json <-
       (if type_in app_type [NODEJS_TYPESCRIPT; REACT_FRONTEND] then
          present <- path_exists fs (path // "package.json") ;;
          if present then
            loaded <- load_json fs (path // "package.json") ;; Ok (Some loaded)
          else Ok None
        else Ok None) ;;
     endpoints <- _extract_api_endpoints fs n path ;;
     db_schema <- _extract_database_schema fs n path ;;
     extracted_port <- _extract_port package_json ;;
     extracted_deps <- _extract_dependencies package_json ;;
     Ok {| name := n;
           type := app_type;
           base_path := path;
           port := extracted_port;
           api_endpoints := endpoints;
           database_schema := db_schema;
           dependencies := extracted_deps;
           integration_points := [] |}).
Proof. reflexivity. Qed.

(** The fields of a returned record that do not come from the manifest. *)
Lemma analyze_application_fields
  (fs : FileSystem) (n path : string) (a : ApplicationMetadata) :
  _analyze_application fs n path = Ok a ->
  name a = n /\
  _determine_application_type fs n path = Ok (type a) /\
  base_path a = path /\
  _extract_api_endpoints fs n path = Ok (api_endpoints a) /\
  _extract_database_schema fs n path = Ok (database_schema a) /\
  integration_points a = [].
Proof.
  rewrite analyze_application_steps. intros H.
  destruct (_determine_application_type fs n path) as [t |]; [| discriminate].
  cbn [bind] in H.
  match type of H with
  | bind ?m _ = _ => destruct m as [pj |]; [| discriminate]
  end.
  cbn [bind] in H.
  destruct (_extract_api_endpoints fs n path) as [eps |]; [| discriminate].
  cbn [bind] in H.
  destruct (_extract_database_schema fs n path) as [sch |]; [| discriminate].
  cbn [bind] in H.
  destruct (_extract_port pj) as [p |]; [| discriminate].
  cbn [bind] in H.
  destruct (_extract_dependencies pj) as [deps |]; [| discriminate].
  cbn [bind] in H. injection H as <-. repeat split.
Qed.

(** A record that the profiler returned selects WebSocket as a source
    whatever the target, unless it is the record of ParadoxResolver, which
    never does. *)
Theorem profiled_source_selects_websocket
  (fs : FileSystem) (n path : string) (a : ApplicationMetadata) :
  _analyze_application fs n path = Ok a ->
  forall b, In WEBSOCKET (_determine_protocols a b) <-> n <> "ParadoxResolver".
Proof.
  intros H b.
  destruct (analyze_application_fields fs n path a H) as [_ [Ht _]].
  rewrite websocket_iff_source_live.
  rewrite (determine_application_type_live fs n path (type a) Ht).
  destruct (String.eqb_spec n "ParadoxResolver") as [-> | Hne]; simpl.
  - split; [discriminate | congruence].
  - split; auto.
Qed.

(** With a manifest object of the usual shape, and when the probes of the
    classifier and of the scan return, the profiler returns a record when
    the digits of the port are at most 4300: its port is the one found in
    the dev script and its dependencies are the names of the two sections.
    With a longer run of digits it raises ValueError. *)
Theorem analyze_application_with_manifest
  (fs : FileSystem) (n path : string) (t : ApplicationType) (d : dict json)
  (eps : list string) (schema : dict schema_summary) :
  n <> "ParadoxResolver" ->
  _determine_application_type fs n path = Ok t ->
  path_exists fs (path // "package.json") = Ok true ->
  load_json fs (path // "package.json") = Ok (JObj d) ->
  _extract_api_endpoints fs n path = Ok eps ->
  _extract_database_schema fs n path = Ok schema ->
  scripts_well_shaped d = true ->
  section_is_object d "dependencies" = true ->
  section_is_object d "devDependencies" = true ->
  (forall p, _extract_port (Some (JObj d)) = Ok p ->
     _analyze_application fs n path =
       Ok {| name := n;
             type := t;
             base_path := path;
             port := p;
             api_endpoints := eps;
             database_schema := schema;
             dependencies := section_names (JObj d) "dependencies"
                               ++ section_names (JObj d) "devDependencies";
             integration_points := [] |}) /\
  (forall ds, search_port (dev_script_of d) = Some ds ->
     String.length ds <= 4300 ->
     _extract_port (Some (JObj d)) = Ok (Some (int_of_digits ds))) /\
  (search_port (dev_script_of d) = None ->
     _extract_port (Some (JObj d)) = Ok None) /\
  (forall ds, search_port (dev_script_of d) = Some ds ->
     4300 < String.length ds ->
     _analyze_application fs n path = Raise ValueError).
Proof.
  intros Hn Ht Hm Hl He Hs Hshape H1 H2.
  rewrite analyze_application_steps, Ht. cbn [bind].
  rewrite (determine_application_type_loads_manifest fs n path t Hn Ht).
  rewrite Hm. cbn [bind]. rewrite Hl. cbn [bind]. rewrite He, Hs. cbn [bind].
  rewrite (extract_dependencies_object d H1 H2).
  rewrite (extract_port_object d Hshape).
  split; [| split; [| split]].
  - intros p Hp. rewrite Hp. reflexivity.
  - intros ds Hds Hlen. rewrite Hds.
    destruct (int_of_str_cases ds) as [[_ Hv] | [Hlong _]]; [| lia].
    rewrite Hv. reflexivity.
  - intros Hnone. rewrite Hnone. reflexivity.
  - intros ds Hds Hlong. rewrite Hds.
    destruct (int_of_str_cases ds) as [[Hlen _] | [_ Hv]]; [lia |].
    rewrite Hv. reflexivity.
Qed.


Lemma flat_mapM_in (A B : Type) (f : A -> result (list B)) (l : list A)
  (r : list B) (y : B) :
  flat_mapM f l = Ok r -> In y r ->
  exists x ys, In x l /\ f x = Ok ys /\ In y ys.
Proof.
  revert r. induction l as [| x l IH]; simpl; intros r H Hy.
  - injection H as <-. destruct Hy.
  - destruct (f x) as [ys |] eqn:Hx; cbn [bind] in H; [| discriminate].
    destruct (flat_mapM f l) as [rest |]; cbn [bind] in H; [| discriminate].
    injection H as <-. apply in_app_or in Hy as [Hy | Hy].
    + exists x, ys. split; [now left | split; [exact Hx | exact Hy]].
    + destruct (IH rest eq_refl Hy) as [x' [ys' [Hin [Hx' Hy']]]].
      exists x', ys'. split; [now right | split; assumption].
Qed.


Lemma schema_walk_raise (fs : FileSystem) (files : list string) (e : exn) :
  fold_left (fun acc file_path =>
               schema <- acc ;;
               regular <- is_file fs file_path ;;
               if regular
               then Ok (dict_set schema file_path (_parse_schema_file fs file_path))
               else Ok schema)
            files (Raise e) = Raise e.
Proof.
  induction files as [| f files IH]; simpl; [reflexivity | exact IH].
Qed.

Lemma fold_left_flat_map (A B C : Type) (f : A -> C -> A) (g : B -> list C)
  (l : list B) (a : A) :
  fold_left (fun acc x => fold_left f (g x) acc) l a
  = fold_left f (flat_map g l) a.
Proof.
  revert a. induction l as [| x l IH]; intros a; simpl; [reflexivity |].
  rewrite fold_left_app. apply IH.
Qed.

(** The schema walk as one loop over the files of the three globs. *)
Lemma extract_database_schema_walk (fs : FileSystem) (n path : string) :
  _extract_database_schema fs n path =
    fold_left (fun acc file_path =>
                 schema <- acc ;;
                 regular <- is_file fs file_path ;;
                 if regular
                 then Ok (dict_set schema file_path (_parse_schema_file fs file_path))
                 else Ok schema)
              (flat_map (glob fs path)
                        ["**/schema.ts"; "**/schema.sql"; "**/migrations/**"])
              (Ok []).
Proof.
  unfold _extract_database_schema.
  exact (fold_left_flat_map _ _ _
           (fun acc file_path =>
              schema <- acc ;;
              regular <- is_file fs file_path ;;
              if regular
              then Ok (dict_set schema file_path (_parse_schema_file fs file_path))
              else Ok schema)
           (glob fs path)
           ["**/schema.ts"; "**/schema.sql"; "**/migrations/**"] (Ok [])).
Qed.



(** ** Route extractor *)

Lemma parse_routes_origin (fs : FileSystem) (file_path ep : string) :
  In ep (_parse_routes_from_file fs file_path) ->
  exists (content head : string) (off : nat),
    read_text fs file_path = Ok content /\
    In head express_patterns /\
    occurs_at head ep off content.
Proof.
  unfold _parse_routes_from_file.
  destruct (read_text fs file_path) as [content |]; cbn [bind try_except];
    [| intros []].
  intros H. apply in_flat_map in H as [head [Hhead Hin]].
  unfold findall in Hin. apply in_map_iff in Hin as [[off cap] [Heq Hin]].
  simpl in Heq. subst cap.
  exists content, head, off. repeat split; try assumption.
  exact (finditer_from_occurs _ head EmptyString content off ep Hin).
Qed.

(** Every endpoint listed for an application is the group of a match of
    one of the six patterns in a readable file that one of the four server
    globs returned; in particular it is not empty and holds no quote. *)
(** Every endpoint listed for an application is the group of a match of
    one of the six patterns in a readable file that one of the four server
    globs returned; in particular it is not empty and holds no quote. *)
Theorem extract_api_endpoints_origin
  (fs : FileSystem) (n path : string) (eps : list string) (ep : string) :
  _extract_api_endpoints fs n path = Ok eps ->
  In ep eps ->
  ep <> EmptyString /\
  quote_free ep = true /\
  exists (pattern file_path content head : string) (off : nat),
    In pattern ["server/**/*.ts"; "server/**/*.js"; "src/**/*.ts"; "src/**/*.js"] /\
    In file_path (glob fs path pattern) /\
    is_file fs file_path = Ok true /\
    read_text fs file_path = Ok content /\
    In head express_patterns /\
    occurs_at head ep off content.
Proof.
  unfold _extract_api_endpoints. intros Hrun H.
  destruct (flat_mapM_in _ _ _ _ eps ep Hrun H)
    as [pattern [found [Hpat [Hinner Hfound]]]].
  destruct (flat_mapM_in _ _ _ _ found ep Hinner Hfound)
    as [file_path [routes [Hfile [Hbody Hroutes]]]].
  destruct (is_file fs file_path) as [[|] |] eqn:Hisfile; cbn [bind] in Hbody;
    try discriminate.
  2:{ injection Hbody as <-. destruct Hroutes. }
  injection Hbody as <-.
  destruct (parse_routes_origin fs file_path ep Hroutes)
    as [content [head [off [Hread [Hhead Hocc]]]]].
  pose proof Hocc as [pre [q1 [q2 [post [_ [_ [_ [_ [Hne Hfree]]]]]]]]].
  split; [exact Hne | split; [exact Hfree |]].
  exists pattern, file_path, content, head, off. repeat split; assumption.
Qed.

Lemma list_ascii_of_string_append (a b : string) :
  list_ascii_of_string (a ++ b)
  = list_ascii_of_string a ++ list_ascii_of_string b.
Proof.
  induction a as [| c a IH]; simpl; [reflexivity | now rewrite IH].
Qed.

(** A text without any quote character yields no route. *)
Theorem parse_routes_needs_a_quote (fs : FileSystem) (file_path content : string) :
  read_text fs file_path = Ok content ->
  quote_free content = true ->
  _parse_routes_from_file fs file_path = [].
Proof.
  intros Hread Hfree.
  destruct (_parse_routes_from_file fs file_path) as [| ep eps] eqn:Hres;
    [reflexivity | exfalso].
  assert (Hin : In ep (_parse_routes_from_file fs file_path))
    by (rewrite Hres; now left).
  destruct (parse_routes_origin fs file_path ep Hin)
    as [content' [head [off [Hread' [_ Hocc]]]]].
  rewrite Hread in Hread'. injection Hread' as <-.
  destruct Hocc as [pre [q1 [q2 [post [E [_ [Hq1 _]]]]]]].
  unfold quote_free in Hfree. rewrite E in Hfree.
  rewrite !list_ascii_of_string_append in Hfree.
  rewrite !forallb_app in Hfree. simpl in Hfree.
  rewrite Hq1 in Hfree. simpl in Hfree.
  rewrite !andb_false_r in Hfree. discriminate.
Qed.

Lemma findall_at_match (head path rest : string) (q1 q2 : ascii) :
  is_quote q1 = true -> is_quote q2 = true ->
  path <> EmptyString ->
  quote_free path = true ->
  findall head (head ++ String q1 (path ++ String q2 rest)) = path :: findall head rest.
Proof.
  intros H1 H2 Hne Hall. unfold findall, finditer.
  rewrite finditer_from_step.
  rewrite (match_route_complete head path rest q1 q2 H1 H2 Hne Hall).
  rewrite map_cons. cbv [snd]. f_equal. apply finditer_from_groups.
Qed.

(** A text that starts with a call on one of the six patterns yields the
    path of that call, whichever quote character opens the literal and
    whichever closes it. *)
Theorem parse_routes_finds_leading_call
  (fs : FileSystem) (file_path head path rest : string) (q1 q2 : ascii) :
  In head express_patterns ->
  is_quote q1 = true -> is_quote q2 = true ->
  path <> EmptyString ->
  quote_free path = true ->
  read_text fs file_path = Ok (head ++ String q1 (path ++ String q2 rest))%string ->
  In path (_parse_routes_from_file fs file_path).
Proof.
  intros Hhead H1 H2 Hne Hfree Hread.
  unfold _parse_routes_from_file. rewrite Hread. cbn [bind try_except].
  apply in_flat_map. exists head. split; [exact Hhead |].
  rewrite (findall_at_match head path rest q1 q2 H1 H2 Hne Hfree).
  now left.
Qed.

(** ** Schema hints *)

Lemma str_take_length (n : nat) (s : string) :
  String.length (str_take n s) = Nat.min n (String.length s).
Proof.
  revert s. induction n as [| n IH]; intros s; [reflexivity |].
  destruct s as [| c s]; [reflexivity |].
  cbn [str_take String.length]. rewrite IH. reflexivity.
Qed.

Lemma str_take_prefix (n : nat) (s : string) :
  exists rest, s = (str_take n s ++ rest)%string.
Proof.
  revert s. induction n as [| n IH]; intros s; [exists s; reflexivity |].
  destruct s as [| c s]; [exists EmptyString; reflexivity |].
  destruct (IH s) as [rest E]. exists rest.
  cbn [str_take]. simpl. now rewrite <- E.
Qed.

Lemma str_take_all (n : nat) (s : string) :
  String.length s <= n -> str_take n s = s.
Proof.
  revert s. induction n as [| n IH]; intros s H.
  - destruct s; [reflexivity | simpl in H; lia].
  - destruct s as [| c s]; [reflexivity |].
    cbn [str_take]. rewrite IH; [reflexivity | simpl in H; lia].
Qed.

(** The summary of a readable schema file has no table and an excerpt that
    is the first 1000 characters of the text: a prefix of the text of
    length min(1000, length), the whole text when it is that short. *)
Theorem parse_schema_file_excerpt (fs : FileSystem) (file_path content : string) :
  read_text fs file_path = Ok content ->
  exists raw,
    _parse_schema_file fs file_path = SchemaContent [] raw /\
    String.length raw = Nat.min 1000 (String.length content) /\
    (exists rest, content = (raw ++ rest)%string) /\
    (String.length content <= 1000 -> raw = content).
Proof.
  intros Hread. exists (str_take 1000 content).
  unfold _parse_schema_file. rewrite Hread.
  split; [reflexivity |].
  split; [apply str_take_length |].
  split; [apply str_take_prefix | apply str_take_all].
Qed.

Lemma dict_get_set (V : Type) (d : dict V) (k k' : string) (v : V) :
  dict_get (dict_set d k v) k'
  = if String.eqb k' k then Some v else dict_get d k'.
Proof.
  induction d as [| [k0 v0] d IH]; simpl.
  - reflexivity.
  - destruct (String.eqb_spec k k0) as [-> | Hne]; simpl.
    + destruct (String.eqb k' k0); reflexivity.
    + rewrite IH.
      destruct (String.eqb_spec k' k0) as [-> | Hne'];
        [| reflexivity].
      destruct (String.eqb_spec k0 k) as [-> | _]; [congruence | reflexivity].
Qed.

Section SchemaWalk.

Variable fs : FileSystem.

Let step (acc : result (dict schema_summary)) (file_path : string) :=
  schema <- acc ;;
  regular <- is_file fs file_path ;;
  if regular
  then Ok (dict_set schema file_path (_parse_schema_file fs file_path))
  else Ok schema.

Lemma schema_step_raise (files : list string) (e : exn) :
  fold_left step files (Raise e) = Raise e.
Proof. exact (schema_walk_raise fs files e). Qed.

Lemma schema_walk_wf (files : list string)
  (start schema : dict schema_summary) :
  fold_left step files (Ok start) = Ok schema ->
  dict_wf start -> dict_wf schema.
Proof.
  revert start. induction files as [| f files IH]; intros start Hrun Hwf.
  - simpl in Hrun. injection Hrun as <-. exact Hwf.
  - cbn [fold_left] in Hrun.
    remember (step (Ok start) f) as acc1 eqn:Hacc.
    unfold step in Hacc. cbn [bind] in Hacc.
    destruct (is_file fs f) as [[|] |]; cbn [bind] in Hacc; subst acc1.
    + apply (IH _ Hrun). now apply dict_set_wf.
    + exact (IH _ Hrun Hwf).
    + rewrite schema_step_raise in Hrun. discriminate.
Qed.

Lemma schema_walk_lookup (files : list string)
  (start schema : dict schema_summary) (k : string) :
  fold_left step files (Ok start) = Ok schema ->
  dict_get schema k
  = if existsb (fun f => String.eqb k f
                         && match is_file fs f with Ok b => b | Raise _ => false end)
               files
    then Some (_parse_schema_file fs k)
    else dict_get start k.
Proof.
  revert start. induction files as [| f files IH]; intros start Hrun.
  - simpl in Hrun. injection Hrun as <-. reflexivity.
  - cbn [fold_left] in Hrun.
    remember (step (Ok start) f) as acc1 eqn:Hacc.
    unfold step in Hacc. cbn [bind] in Hacc. cbn [existsb].
    destruct (is_file fs f) as [[|] |]; cbn [bind] in Hacc; subst acc1.
    + rewrite (IH _ Hrun).
      destruct (existsb _ files); [now rewrite orb_true_r |].
      rewrite orb_false_r, andb_true_r, dict_get_set.
      destruct (String.eqb_spec k f) as [-> | _]; reflexivity.
    + rewrite (IH _ Hrun). rewrite andb_false_r. reflexivity.
    + rewrite schema_step_raise in Hrun. discriminate.
Qed.

End SchemaWalk.

(** When the scan for schema files returns, the schema hints hold one
    entry for each file that the three schema globs returned, whatever the
    number of globs that returned it, and nothing else; the entry of a file
    is the summary of that file. *)
Theorem extract_database_schema_entries
  (fs : FileSystem) (n path : string) (schema : dict schema_summary) :
  _extract_database_schema fs n path = Ok schema ->
  dict_wf schema /\
  (forall pattern k,
     In pattern ["**/schema.ts"; "**/schema.sql"; "**/migrations/**"] ->
     In k (glob fs path pattern) -> is_file fs k = Ok true ->
     dict_get schema k = Some (_parse_schema_file fs k)) /\
  (forall k v,
     dict_get schema k = Some v ->
     v = _parse_schema_file fs k /\ is_file fs k = Ok true /\
     exists pattern,
       In pattern ["**/schema.ts"; "**/schema.sql"; "**/migrations/**"] /\
       In k (glob fs path pattern)).
Proof.
  rewrite extract_database_schema_walk. intros Hrun.
  split; [| split].
  - apply (schema_walk_wf fs _ [] schema Hrun). constructor.
  - intros pattern k Hpat Hk Hfile.
    rewrite (schema_walk_lookup fs _ [] schema k Hrun).
    replace (existsb _ _) with true; [reflexivity |].
    symmetry. apply existsb_exists. exists k. split.
    + apply in_flat_map. exists pattern. split; assumption.
    + now rewrite String.eqb_refl, Hfile.
  - intros k v Hget. rewrite (schema_walk_lookup fs _ [] schema k Hrun) in Hget.
    destruct (existsb _ _) eqn:Hex; [| discriminate].
    injection Hget as <-.
    apply existsb_exists in Hex as [f [Hin Hf]].
    apply andb_true_iff in Hf as [Heq Hfile].
    apply String.eqb_eq in Heq. subst f.
    apply in_flat_map in Hin as [pattern [Hpat Hk]].
    split; [reflexivity | split].
    + destruct (is_file fs k) as [[|] |]; try discriminate. reflexivity.
    + exists pattern. split; assumption.
Qed.

(** ** Workspace discovery *)

Section DiscoveryWalk.

Variable fs : FileSystem.
Variable parent : string.

Let step (acc : result (dict ApplicationMetadata)) (app_name : string) :=
  applications <- acc ;;
  let app_path := parent // app_name in
  present <- path_exists fs app_path ;;
  if present then
    metadata <- _analyze_application fs app_name app_path ;;
    Ok (dict_set applications app_name metadata)
  else Ok applications.

Lemma discovery_walk_raise (names : list string) (e : exn) :
  fold_left step names (Raise e) = Raise e.
Proof.
  induction names as [| n names IH]; simpl; [reflexivity | exact IH].
Qed.

(** One pass of the loop, by the answer of the probe and of the profiler. *)
Lemma discovery_step_cases (applications : dict ApplicationMetadata) (n : string) :
  (path_exists fs (parent // n) = Ok false /\
   step (Ok applications) n = Ok applications) \/
  (exists a, path_exists fs (parent // n) = Ok true /\
             _analyze_application fs n (parent // n) = Ok a /\
             step (Ok applications) n = Ok (dict_set applications n a)) \/
  (exists e, (path_exists fs (parent // n) = Raise e \/
              (path_exists fs (parent // n) = Ok true /\
               _analyze_application fs n (parent // n) = Raise e)) /\
             step (Ok applications) n = Raise e).
Proof.
  unfold step. cbn [bind].
  destruct (path_exists fs (parent // n)) as [[|] |]; cbn [bind].
  - destruct (_analyze_application fs n (parent // n)) as [a | e]; cbn [bind].
    + right. left. exists a. auto.
    + right. right. exists e. auto.
  - left. auto.
  - right. right. eauto.
Qed.

Lemma discovery_walk_lookup (names : list string)
  (applications registry : dict ApplicationMetadata) :
  fold_left step names (Ok applications) = Ok registry ->
  forall k,
    (In k names -> exists b, path_exists fs (parent // k) = Ok b) /\
    (In k names -> path_exists fs (parent // k) = Ok true ->
     exists a, _analyze_application fs k (parent // k) = Ok a /\
               dict_get registry k = Some a) /\
    ((In k names -> path_exists fs (parent // k) = Ok false) ->
     dict_get registry k = dict_get applications k).
Proof.
  revert applications.
  induction names as [| n names IH]; intros applications Hrun k.
  - simpl in Hrun. injection Hrun as <-.
    split; [intros [] | split; [intros [] | reflexivity]].
  - cbn [fold_left] in Hrun.
    destruct (discovery_step_cases applications n)
      as [[Hex Hstep] | [[m [Hex [Hm Hstep]]] | [e [_ Hstep]]]];
      rewrite Hstep in Hrun.
    + destruct (IH _ Hrun k) as [Hprobe [Hin Hout]]. split; [| split].
      * intros [<- | Hk]; [eauto | auto].
      * intros [<- | Hk] Hexk; [congruence | exact (Hin Hk Hexk)].
      * intros Hno. apply Hout. intros Hk. apply Hno. now right.
    + destruct (IH _ Hrun k) as [Hprobe [Hin Hout]]. split; [| split].
      * intros [<- | Hk]; [eauto | auto].
      * intros Hk Hexk.
        destruct (in_dec string_dec k names) as [Hk' | Hk'];
          [exact (Hin Hk' Hexk) |].
        destruct Hk as [<- | Hk]; [| contradiction].
        exists m. split; [exact Hm |].
        rewrite Hout by (intros Hk; contradiction).
        rewrite dict_get_set. now rewrite String.eqb_refl.
      * intros Hno.
        rewrite Hout by (intros Hk; apply Hno; now right).
        rewrite dict_get_set.
        destruct (String.eqb_spec k n) as [-> | _]; [| reflexivity].
        rewrite Hno in Hex by (now left). discriminate.
    + rewrite discovery_walk_raise in Hrun. discriminate.
Qed.

Lemma dict_has_absent (V : Type) (d : dict V) (k : string) :
  ~ In k (keys d) -> dict_has d k = false.
Proof.
  unfold dict_has. induction d as [| [k' v'] d IH]; simpl; [reflexivity |].
  intros Hnot. destruct (String.eqb_spec k k') as [-> | _].
  - exfalso. apply Hnot. now left.
  - apply IH. intros H. apply Hnot. now right.
Qed.

Lemma discovery_walk_keys (names : list string)
  (applications registry : dict ApplicationMetadata) :
  NoDup names ->
  (forall n, In n names -> ~ In n (keys applications)) ->
  fold_left step names (Ok applications) = Ok registry ->
  keys registry
  = keys applications
      ++ filter (fun n => exists_dir fs (parent // n)) names.
Proof.
  revert applications.
  induction names as [| n names IH]; intros applications Hnd Hfresh Hrun.
  - simpl in Hrun. injection Hrun as <-. simpl. now rewrite app_nil_r.
  - inversion Hnd as [| ? ? Hn Hnd']; subst.
    cbn [fold_left] in Hrun. cbn [filter]. unfold exists_dir at 1.
    destruct (discovery_step_cases applications n)
      as [[Hex Hstep] | [[m [Hex [Hm Hstep]]] | [e [_ Hstep]]]];
      rewrite Hstep in Hrun.
    + rewrite Hex. apply (IH _ Hnd'); [| exact Hrun].
      intros k Hk. apply Hfresh. now right.
    + rewrite Hex.
      assert (Hkeys : keys (dict_set applications n m) = keys applications ++ [n]).
      { rewrite dict_set_keys, dict_has_absent; [reflexivity |].
        apply Hfresh. now left. }
      rewrite (IH _ Hnd') with (2 := Hrun).
      * rewrite Hkeys, <- app_assoc. reflexivity.
      * intros k Hk. rewrite Hkeys. intros Hin.
        apply in_app_or in Hin as [Hin | [<- | []]].
        -- exact (Hfresh k (or_intror Hk) Hin).
        -- contradiction.
    + rewrite discovery_walk_raise in Hrun. discriminate.
Qed.

Lemma discovery_walk_succeeds (names : list string)
  (applications : dict ApplicationMetadata) :
  (forall n, In n names ->
     exists b, path_exists fs (parent // n) = Ok b /\
               (b = true -> exists a, _analyze_application fs n (parent // n) = Ok a)) ->
  exists registry, fold_left step names (Ok applications) = Ok registry.
Proof.
  revert applications.
  induction names as [| n names IH]; intros applications Hall.
  - exists applications. reflexivity.
  - cbn [fold_left].
    destruct (Hall n (or_introl eq_refl)) as [b [Hb Hana]].
    destruct (discovery_step_cases applications n)
      as [[Hex Hstep] | [[m [Hex [Hm Hstep]]] | [e [Horigin Hstep]]]];
      rewrite Hstep.
    + apply IH. intros k Hk. apply Hall. now right.
    + apply IH. intros k Hk. apply Hall. now right.
    + exfalso. destruct Horigin as [Hex | [Hex Hm]].
      * rewrite Hex in Hb. discriminate.
      * rewrite Hex in Hb. injection Hb as <-.
        destruct (Hana eq_refl) as [a Ha]. rewrite Ha in Hm. discriminate.
Qed.

Lemma discovery_walk_failure (names : list string)
  (applications : dict ApplicationMetadata) (e : exn) :
  fold_left step names (Ok applications) = Raise e ->
  exists n, In n names /\
            (path_exists fs (parent // n) = Raise e \/
             (path_exists fs (parent // n) = Ok true /\
              _analyze_application fs n (parent // n) = Raise e)).
Proof.
  revert applications.
  induction names as [| n names IH]; intros applications Hrun.
  - discriminate.
  - cbn [fold_left] in Hrun.
    destruct (discovery_step_cases applications n)
      as [[Hex Hstep] | [[m [Hex [Hm Hstep]]] | [e' [Horigin Hstep]]]];
      rewrite Hstep in Hrun.
    + destruct (IH _ Hrun) as [k [Hk Hrest]]. exists k. split; [now right | exact Hrest].
    + destruct (IH _ Hrun) as [k [Hk Hrest]]. exists k. split; [now right | exact Hrest].
    + rewrite discovery_walk_raise in Hrun. injection Hrun as ->.
      exists n. split; [now left | exact Horigin].
Qed.

Lemma dict_set_same (V : Type) (d : dict V) (k : string) (v : V) :
  dict_get d k = Some v -> dict_set d k v = d.
Proof.
  induction d as [| [k' v'] d IH]; simpl; [discriminate |].
  destruct (String.eqb_spec k k') as [-> | _].
  - intros H. injection H as ->. reflexivity.
  - intros H. now rewrite IH.
Qed.

Lemma discovery_walk_again (names : list string)
  (registry : dict ApplicationMetadata) :
  (forall n, In n names -> exists b, path_exists fs (parent // n) = Ok b) ->
  (forall n, In n names -> path_exists fs (parent // n) = Ok true ->
             exists a, _analyze_application fs n (parent // n) = Ok a /\
                       dict_get registry n = Some a) ->
  fold_left step names (Ok registry) = Ok registry.
Proof.
  induction names as [| n names IH]; intros Hprobe Hall; [reflexivity |].
  cbn [fold_left].
  assert (Hstep : step (Ok registry) n = Ok registry).
  { destruct (discovery_step_cases registry n)
      as [[Hex Hstep] | [[m [Hex [Hm Hstep]]] | [e [Horigin Hstep]]]].
    - exact Hstep.
    - destruct (Hall n (or_introl eq_refl) Hex) as [a [Ha Hget]].
      rewrite Hm in Ha. injection Ha as ->.
      rewrite Hstep, (dict_set_same _ registry n a Hget). reflexivity.
    - exfalso. destruct (Hprobe n (or_introl eq_refl)) as [b Hb].
      destruct Horigin as [Hex | [Hex Hm]].
      + rewrite Hex in Hb. discriminate.
      + destruct (Hall n (or_introl eq_refl) Hex) as [a [Ha _]].
        rewrite Ha in Hm. discriminate. }
  rewrite Hstep. apply IH.
  - intros k Hk. apply Hprobe. now right.
  - intros k Hk. apply Hall. now right.
Qed.

End DiscoveryWalk.

Lemma app_directories_nodup : NoDup app_directories.
Proof.
  unfold app_directories.
  repeat (constructor; [simpl; intuition discriminate |]). constructor.
Qed.

(** A name that is a key of the returned registry is a candidate whose
    directory exists, and its entry is the record of the profiler. *)
Lemma discovered_entry
  (fs : FileSystem) (parent : string) (registry : dict ApplicationMetadata)
  (n : string) (a : ApplicationMetadata) :
  discover_applications fs parent [] = Ok registry ->
  dict_get registry n = Some a ->
  In n app_directories /\
  path_exists fs (parent // n) = Ok true /\
  _analyze_application fs n (parent // n) = Ok a.
Proof.
  unfold discover_applications. intros Hrun Hget.
  destruct (discovery_walk_lookup fs parent app_directories [] registry Hrun n)
    as [Hprobe [Hin Hout]].
  destruct (in_dec string_dec n app_directories) as [Hn | Hn].
  - destruct (Hprobe Hn) as [[|] Hex].
    + destruct (Hin Hn Hex) as [a' [Ha' Hget']].
      rewrite Hget in Hget'. injection Hget' as <-. auto.
    + rewrite Hout in Hget by (intros _; exact Hex). discriminate.
  - rewrite Hout in Hget by (intros Hn'; contradiction). discriminate.
Qed.

Lemma discovered_keys
  (fs : FileSystem) (parent : string) (registry : dict ApplicationMetadata) :
  discover_applications fs parent [] = Ok registry ->
  keys registry
    = filter (fun n => exists_dir fs (parent // n)) app_directories /\
  dict_wf registry /\
  List.length registry <= 8.
Proof.
  unfold discover_applications. intros Hrun.
  assert (Hkeys : keys registry
                  = filter (fun n => exists_dir fs (parent // n)) app_directories).
  { exact (discovery_walk_keys fs parent app_directories [] registry
             app_directories_nodup (fun n _ H => H) Hrun). }
  split; [exact Hkeys | split].
  - unfold dict_wf. rewrite Hkeys. apply NoDup_filter, app_directories_nodup.
  - replace (List.length registry) with (List.length (keys registry))
      by (unfold keys; apply List.length_map).
    rewrite Hkeys.
    apply (Nat.le_trans _ _ _ (filter_length_le _ app_directories)).
    simpl. lia.
Qed.

(** What discovery returns from an empty registry: the candidates whose
    directory exists, in the order of the candidate list, each with the
    record that the profiler returns for it, named after it and rooted at
    its directory; at most eight of them. *)
Theorem discover_applications_registry
  (fs : FileSystem) (parent : string) (registry : dict ApplicationMetadata) :
  discover_applications fs parent [] = Ok registry ->
  keys registry
    = filter (fun n => exists_dir fs (parent // n)) app_directories /\
  (forall n a,
     dict_get registry n = Some a ->
     In n app_directories /\
     path_exists fs (parent // n) = Ok true /\
     _analyze_application fs n (parent // n) = Ok a /\
     name a = n /\ base_path a = parent // n) /\
  List.length registry <= 8.
Proof.
  intros Hrun.
  destruct (discovered_keys fs parent registry Hrun) as [Hkeys [_ Hlen]].
  split; [exact Hkeys | split; [| exact Hlen]].
  intros n a Hget.
  destruct (discovered_entry fs parent registry n a Hrun Hget) as [Hn [Hex Ha]].
  destruct (analyze_application_fields fs n (parent // n) a Ha)
    as [Hname [_ [Hbase _]]].
  repeat split; assumption.
Qed.

(** Discovery returns a registry exactly when, for every candidate, the
    probe of its directory returns and, the directory existing, the profiler
    returns a record. When discovery raises, the exception is the one that
    the probe of a candidate's directory raised, or the one that the
    profiler raised on a candidate whose directory exists. *)
Theorem discover_applications_succeeds_iff
  (fs : FileSystem) (parent : string) (applications : dict ApplicationMetadata) :
  ((exists registry, discover_applications fs parent applications = Ok registry) <->
   (forall n, In n app_directories ->
      exists b, path_exists fs (parent // n) = Ok b /\
                (b = true ->
                 exists a, _analyze_application fs n (parent // n) = Ok a))) /\
  (forall e, discover_applications fs parent applications = Raise e ->
             exists n, In n app_directories /\
                       (path_exists fs (parent // n) = Raise e \/
                        (path_exists fs (parent // n) = Ok true /\
                         _analyze_application fs n (parent // n) = Raise e))).
Proof.
  unfold discover_applications. split; [split |].
  - intros [registry Hrun] n Hn.
    destruct (discovery_walk_lookup fs parent app_directories applications
                registry Hrun n) as [Hprobe [Hin _]].
    destruct (Hprobe Hn) as [b Hb]. exists b. split; [exact Hb |].
    intros ->. destruct (Hin Hn Hb) as [a [Ha _]]. exists a. exact Ha.
  - intros Hall.
    exact (discovery_walk_succeeds fs parent app_directories applications Hall).
  - intros e Hrun.
    exact (discovery_walk_failure fs parent app_directories applications e Hrun).
Qed.

(** Running discovery again on the registry it returned, over the same
    file system, returns that registry unchanged. *)
Theorem discover_applications_idempotent
  (fs : FileSystem) (parent : string)
  (applications registry : dict ApplicationMetadata) :
  discover_applications fs parent applications = Ok registry ->
  discover_applications fs parent registry = Ok registry.
Proof.
  unfold discover_applications. intros Hrun.
  apply (discovery_walk_again fs parent app_directories registry).
  - intros n Hn.
    exact (proj1 (discovery_walk_lookup fs parent app_directories applications
                    registry Hrun n) Hn).
  - intros n Hn Hex.
    exact (proj1 (proj2 (discovery_walk_lookup fs parent app_directories
                           applications registry Hrun n)) Hn Hex).
Qed.
(** ** Planner *)

Lemma dict_get_none_iff (V : Type) (d : dict V) (k : string) :
  dict_get d k = None <-> ~ In k (keys d).
Proof.
  induction d as [| [k' v'] d IH]; simpl; [tauto |].
  destruct (String.eqb_spec k k') as [-> | Hne].
  - split; [discriminate | intros H; exfalso; apply H; now left].
  - rewrite IH. split.
    + intros H [Heq | Hin]; [congruence | contradiction].
    + intros H Hin. apply H. now right.
Qed.

(** Building a configuration raises KeyError exactly when one of the two
    names is not in the registry, raises nothing else, and otherwise
    returns a configuration. *)
Theorem create_connector_config_key_error
  (applications : dict ApplicationMetadata) (x y : string) :
  (_create_connector_config applications x y = Raise KeyError <->
     ~ In x (keys applications) \/ ~ In y (keys applications)) /\
  (forall e, _create_connector_config applications x y = Raise e -> e = KeyError) /\
  (In x (keys applications) -> In y (keys applications) ->
   exists c, _create_connector_config applications x y = Ok c).
Proof.
  unfold _create_connector_config, dict_item.
  pose proof (dict_get_none_iff _ applications x) as Hx.
  pose proof (dict_get_none_iff _ applications y) as Hy.
  destruct (dict_get applications x) as [a |];
    destruct (dict_get applications y) as [b |]; cbn [bind];
    (split; [split | split]); intros;
    first
      [ discriminate
      | reflexivity
      | congruence
      | eexists; reflexivity
      | left; apply Hx; reflexivity
      | right; apply Hy; reflexivity
      | exfalso;
        match goal with
        | H : _ \/ _ |- _ => destruct H as [H | H]; [apply Hx in H | apply Hy in H];
                             discriminate
        | H : In x _ |- _ => apply (proj1 Hx); [reflexivity | exact H]
        end
      | exfalso;
        match goal with
        | H : In y _ |- _ => apply (proj1 Hy); [reflexivity | exact H]
        end ].
Qed.

(** With fewer than two applications no connector is generated, whatever
    the generation agent does. *)
Theorem generate_all_connectors_small_registry
  (Artifact : Type) (gen : ConnectorConfig -> result Artifact)
  (applications : dict ApplicationMetadata) :
  List.length applications <= 1 ->
  generate_all_connectors gen applications = Ok [].
Proof.
  destruct applications as [| [k v] [| kv rest]]; simpl; intros H;
    [reflexivity | reflexivity | lia].
Qed.

Lemma mapM_ok_iff (A B : Type) (f : A -> result B) (l : list A) (r : list B) :
  mapM f l = Ok r <-> Forall2 (fun x y => f x = Ok y) l r.
Proof.
  revert r. induction l as [| x l IH]; intros r; simpl.
  - split.
    + intros H. injection H as <-. constructor.
    + intros H. inversion H. reflexivity.
  - split.
    + destruct (f x) as [y |] eqn:Hy; cbn [bind]; [| discriminate].
      destruct (mapM f l) as [ys |]; cbn [bind]; [| discriminate].
      intros H. injection H as <-. constructor; [exact Hy | now apply IH].
    + intros H. inversion H as [| ? y ? ys Hy Hrest]; subst.
      rewrite Hy. cbn [bind]. apply IH in Hrest. rewrite Hrest. reflexivity.
Qed.

Lemma mapM_raise_iff (A B : Type) (f : A -> result B) (l : list A) (e : exn) :
  mapM f l = Raise e <->
  exists l1 x l2 r1,
    l = l1 ++ x :: l2 /\
    Forall2 (fun x y => f x = Ok y) l1 r1 /\
    f x = Raise e.
Proof.
  induction l as [| x l IH]; simpl.
  - split; [discriminate |].
    intros [l1 [x [l2 [r1 [E _]]]]]. destruct l1; discriminate.
  - split.
    + destruct (f x) as [y |] eqn:Hy; cbn [bind].
      * destruct (mapM f l) as [ys |] eqn:Hl; cbn [bind]; [discriminate |].
        intros H. injection H as <-.
        destruct (proj1 IH eq_refl) as [l1 [x' [l2 [r1 [E [Hok Hx']]]]]].
        exists (x :: l1), x', l2, (y :: r1).
        split; [simpl; now rewrite E | split; [now constructor | exact Hx']].
      * intros H. injection H as <-.
        exists [], x, l, []. repeat split; [constructor | exact Hy].
    + intros [l1 [x' [l2 [r1 [E [Hok Hx']]]]]].
      destruct l1 as [| z l1].
      * simpl in E. injection E as <- <-. rewrite Hx'. reflexivity.
      * simpl in E. injection E as <- ->.
        inversion Hok as [| ? y ? r1' Hy Hrest]; subst.
        rewrite Hy. cbn [bind].
        replace (mapM f (l1 ++ x' :: l2)) with (@Raise (list B) e);
          [reflexivity |].
        symmetry. apply IH. exists l1, x', l2, r1'. repeat split; assumption.
Qed.

(** The generation agent is run on the planned configurations in order
    and the run stops at the first one on which it raises: the call returns
    the artifacts when the agent returns one for every configuration, and
    otherwise raises the agent's first exception, with no artifact
    returned. *)
Theorem generate_all_connectors_stops_at_first_failure
  (applications : dict ApplicationMetadata) :
  dict_wf applications ->
  exists configs,
    planned_configs applications = Ok configs /\
    forall (Artifact : Type) (gen : ConnectorConfig -> result Artifact),
      (forall artifacts,
         generate_all_connectors gen applications = Ok artifacts <->
         Forall2 (fun c p => gen c = Ok p) configs artifacts) /\
      (forall e,
         generate_all_connectors gen applications = Raise e <->
         exists done c rest made,
           configs = done ++ c :: rest /\
           Forall2 (fun c p => gen c = Ok p) done made /\
           gen c = Raise e).
Proof.
  intros Hwf.
  destruct (planned_configs_shape applications Hwf)
    as [configs [Hplan [_ [_ Hrun]]]].
  exists configs. split; [exact Hplan |].
  intros Artifact gen. rewrite Hrun. split.
  - intros artifacts. apply mapM_ok_iff.
  - intros e. apply mapM_raise_iff.
Qed.

Lemma upper_pairs_order (l : list string) (x y : string) :
  In (x, y) (upper_pairs l) ->
  exists l1 l2 l3, l = l1 ++ x :: l2 ++ y :: l3.
Proof.
  induction l as [| z l IH]; simpl; [intros [] |].
  intros H. apply in_app_or in H as [H | H].
  - apply in_map_iff in H as [t [Heq Ht]]. injection Heq as <- <-.
    apply in_split in Ht as [l2 [l3 ->]].
    exists [], l2, l3. reflexivity.
  - destruct (IH H) as [l1 [l2 [l3 ->]]].
    exists (z :: l1), l2, l3. reflexivity.
Qed.

(** In every planned configuration the source comes before the target in
    the order of the registry. *)
Theorem planned_configs_orientation (applications : dict ApplicationMetadata) :
  dict_wf applications ->
  exists configs,
    planned_configs applications = Ok configs /\
    forall c, In c configs ->
      exists l1 l2 l3,
        keys applications = l1 ++ source_app c :: l2 ++ target_app c :: l3.
Proof.
  intros Hwf.
  destruct (planned_configs_shape applications Hwf)
    as [configs [Hplan [Hmap _]]].
  exists configs. split; [exact Hplan |].
  intros c Hc. apply upper_pairs_order. rewrite <- Hmap.
  change (source_app c, target_app c) with (endpoints_of c).
  now apply in_map.
Qed.


(** ** Dependency extractor, failures *)

(** Manifests that make the dependency extractor raise: a section that is
    present and is not an object gives AttributeError. An absent or empty
    manifest and a manifest with neither section give no dependency. *)
Theorem extract_dependencies_error_cases (d : dict json) :
  d <> [] ->
  (forall v, dict_get d "dependencies" = Some v ->
             match v with JObj _ => False | _ => True end ->
             _extract_dependencies (Some (JObj d)) = Raise AttributeError) /\
  (forall v, section_is_object d "dependencies" = true ->
             dict_get d "devDependencies" = Some v ->
             match v with JObj _ => False | _ => True end ->
             _extract_dependencies (Some (JObj d)) = Raise AttributeError) /\
  (dict_get d "dependencies" = None -> dict_get d "devDependencies" = None ->
   _extract_dependencies (Some (JObj d)) = Ok []) /\
  _extract_dependencies None = Ok [] /\
  _extract_dependencies (Some (JObj [])) = Ok [].
Proof.
  intros Hne.
  assert (Ht : json_truthy (JObj d) = true) by (destruct d; [congruence | reflexivity]).
  unfold _extract_dependencies, section_is_object. rewrite Ht. cbn [negb]. cbv iota.
  unfold extend_with_sections, json_contains, json_getitem, dict_has, dict_item.
  split; [| split; [| split; [| split; reflexivity]]].
  - intros v Hv Hshape. rewrite Hv. cbn [bind]. cbv iota.
    destruct v; try reflexivity. contradiction.
  - intros v Hdeps Hv Hshape. rewrite Hv.
    destruct (dict_get d "dependencies") as [[| | | | | | f1] |];
      try discriminate; cbn [bind json_keys]; cbv iota;
      destruct v; try reflexivity; contradiction.
  - intros H1 H2. rewrite H1, H2. reflexivity.
Qed.

Lemma extract_dependencies_error_cases_witness :
  _extract_dependencies
    (Some (JObj [("dependencies", JArr [JStr "express"])]))
  = Raise AttributeError.
Proof.
  refine (proj1 (extract_dependencies_error_cases
                   [("dependencies", JArr [JStr "express"])] _)
            (JArr [JStr "express"]) eq_refl I).
  discriminate.
Defined.

(** ** Discovery followed by planning *)

(** On the registry that discovery returns from an empty one the planner
    builds k(k-1)/2 configurations, k the number of candidates whose
    directory exists, hence at most 28, without a KeyError; each of them
    has WebSocket among its protocols exactly when its source is not
    ParadoxResolver. *)
Theorem discover_then_plan
  (fs : FileSystem) (parent : string) (registry : dict ApplicationMetadata) :
  discover_applications fs parent [] = Ok registry ->
  exists configs,
    planned_configs registry = Ok configs /\
    2 * List.length configs
      = List.length registry * (List.length registry - 1) /\
    List.length configs <= 28 /\
    forall c, In c configs ->
      (In WEBSOCKET (protocols c) <-> source_app c <> "ParadoxResolver").
Proof.
  intros Hrun.
  destruct (discovered_keys fs parent registry Hrun) as [Hkeys [Hwf Hlen]].
  destruct (planned_configs_shape registry Hwf)
    as [configs [Hplan [Hmap [Hmade _]]]].
  assert (Hcount : 2 * List.length configs
                   = List.length registry * (List.length registry - 1)).
  { pose proof (upper_pairs_length (keys registry)) as H.
    rewrite <- Hmap in H. unfold keys in H. rewrite !List.length_map in H.
    exact H. }
  exists configs. split; [exact Hplan | split; [exact Hcount | split]].
  - nia.
  - intros c Hc. pose proof (Hmade c Hc) as Hmk.
    unfold _create_connector_config, dict_item in Hmk.
    destruct (dict_get registry (source_app c)) as [a |] eqn:Ha; [| discriminate].
    destruct (dict_get registry (target_app c)) as [b |]; [| discriminate].
    cbn [bind] in Hmk. injection Hmk as Hmk.
    assert (Hp : protocols c = _determine_protocols a b)
      by (rewrite <- Hmk; reflexivity).
    rewrite Hp, websocket_iff_source_live.
    destruct (discovered_entry fs parent registry (source_app c) a Hrun Ha)
      as [_ [_ Hana]].
    destruct (analyze_application_fields fs _ _ a Hana) as [_ [Ht _]].
    rewrite (determine_application_type_live fs _ _ (type a) Ht).
    destruct (String.eqb_spec (source_app c) "ParadoxResolver") as [-> | Hne];
      simpl.
    + split; [discriminate | congruence].
    + split; auto.
Qed.

(** ** Instances *)

Lemma profiled_source_selects_websocket_witness :
  exists a,
    _analyze_application fs_full_manifest "SpaceAgent" "/work/SpaceAgent" = Ok a /\
    In WEBSOCKET (_determine_protocols a paradox).
Proof.
  eexists. split; [reflexivity |].
  refine (proj2 (profiled_source_selects_websocket fs_full_manifest
                   "SpaceAgent" "/work/SpaceAgent" _ eq_refl paradox) _).
  discriminate.
Defined.

Lemma analyze_application_with_manifest_witness :
  _analyze_application fs_full_manifest "SpaceAgent" "/work/SpaceAgent" =
    Ok {| name := "SpaceAgent";
          type := NODEJS_TYPESCRIPT;
          base_path := "/work/SpaceAgent";
          port := Some 4000%Z;
          api_endpoints := [];
          database_schema := [];
          dependencies := ["express"; "jest"];
          integration_points := [] |}.
Proof.
  refine (proj1 (analyze_application_with_manifest fs_full_manifest
                   "SpaceAgent" "/work/SpaceAgent" NODEJS_TYPESCRIPT
                   [ ("name", JStr "space-agent");
                     ("scripts", JObj [("dev", JStr "PORT=4000 vite dev")]);
                     ("dependencies", JObj [("express", JStr "1.0")]);
                     ("devDependencies", JObj [("jest", JStr "2.0")]) ]
                   [] [] _ eq_refl eq_refl eq_refl eq_refl eq_refl
                   eq_refl eq_refl eq_refl)
            (Some 4000%Z) eq_refl).
  discriminate.
Defined.


Lemma extract_api_endpoints_origin_witness :
  "/api/users" <> EmptyString /\ quote_free "/api/users" = true.
Proof.
  destruct (extract_api_endpoints_origin fs_server
              "SpaceAgent" "/work/SpaceAgent"
              ["/api/users"; "/api/orders"] "/api/users" eq_refl)
    as [Hne [Hfree _]].
  - left. reflexivity.
  - split; [exact Hne | exact Hfree].
Defined.

Lemma parse_routes_needs_a_quote_witness :
  _parse_routes_from_file (fs_file text_without_quotes) "index.ts" = [].
Proof.
  exact (parse_routes_needs_a_quote (fs_file text_without_quotes) "index.ts"
           text_without_quotes eq_refl eq_refl).
Defined.

Lemma parse_routes_finds_leading_call_witness :
  In "/health"
     (_parse_routes_from_file (fs_file (call "router" "get" sq "/health")) "routes.ts").
Proof.
  refine (parse_routes_finds_leading_call
            (fs_file (call "router" "get" sq "/health")) "routes.ts"
            "router.get(" "/health" ")" sq sq _ eq_refl eq_refl _ eq_refl eq_refl).
  - simpl. tauto.
  - discriminate.
Defined.

Lemma parse_schema_file_excerpt_witness :
  exists raw,
    _parse_schema_file (fs_file text_schema) "schema.sql" = SchemaContent [] raw /\
    raw = text_schema.
Proof.
  destruct (parse_schema_file_excerpt (fs_file text_schema) "schema.sql"
              text_schema eq_refl) as [raw [Hrun [_ [_ Hall]]]].
  exists raw. split; [exact Hrun |].
  apply Hall. vm_compute. lia.
Defined.

Lemma extract_database_schema_entries_witness :
  exists schema,
    _extract_database_schema fs_server "SpaceAgent" "/work/SpaceAgent" = Ok schema /\
    dict_get schema "/work/SpaceAgent/migrations/schema.sql"
    = Some (_parse_schema_file fs_server "/work/SpaceAgent/migrations/schema.sql") /\
    List.length schema = 1.
Proof.
  eexists. split; [reflexivity | split; [| reflexivity]].
  refine (proj1 (proj2 (extract_database_schema_entries fs_server
                          "SpaceAgent" "/work/SpaceAgent" _ eq_refl))
            "**/migrations/**" "/work/SpaceAgent/migrations/schema.sql"
            _ _ eq_refl).
  - simpl. tauto.
  - simpl. tauto.
Defined.

Lemma discover_applications_registry_witness :
  exists registry,
    discover_applications fs_three_apps "/work" [] = Ok registry /\
    keys registry = ["SpaceAgent"; "ParadoxResolver"; "ConsciousnessProbe"].
Proof.
  eexists. split; [reflexivity |].
  exact (proj1 (discover_applications_registry fs_three_apps "/work" _ eq_refl)).
Defined.

Lemma discover_applications_succeeds_iff_witness :
  exists n, In n app_directories /\
            (path_exists fs_denied ("/work" // n) = Raise PermissionError \/
             (path_exists fs_denied ("/work" // n) = Ok true /\
              _analyze_application fs_denied n ("/work" // n)
              = Raise PermissionError)).
Proof.
  exact (proj2 (discover_applications_succeeds_iff fs_denied "/work" [])
           PermissionError eq_refl).
Defined.

Lemma discover_applications_idempotent_witness :
  exists registry,
    discover_applications fs_three_apps "/work" [] = Ok registry /\
    discover_applications fs_three_apps "/work" registry = Ok registry /\
    List.length registry = 3.
Proof.
  eexists. split; [reflexivity | split; [| reflexivity]].
  exact (discover_applications_idempotent fs_three_apps "/work" [] _ eq_refl).
Defined.

Lemma discover_applications_wf_witness :
  exists registry,
    discover_applications fs_full_manifest "/work" registry3 = Ok registry /\
    dict_wf registry.
Proof.
  eexists. split; [reflexivity |].
  exact (discover_applications_wf fs_full_manifest "/work" registry3 _
           registry3_wf eq_refl).
Defined.

Lemma create_connector_config_key_error_witness :
  _create_connector_config registry3 "SpaceAgent" "MusicPortal" = Raise KeyError.
Proof.
  apply (proj1 (create_connector_config_key_error registry3
                  "SpaceAgent" "MusicPortal")).
  right. simpl. intuition discriminate.
Defined.

Lemma generate_all_connectors_small_registry_witness :
  generate_all_connectors failing_agent [("ParadoxResolver", paradox)] = Ok [].
Proof.
  apply (generate_all_connectors_small_registry string failing_agent
           [("ParadoxResolver", paradox)]).
  simpl. lia.
Defined.

Lemma generate_all_connectors_stops_at_first_failure_witness :
  generate_all_connectors failing_agent registry3 = Raise OSError.
Proof.
  destruct (generate_all_connectors_stops_at_first_failure registry3 registry3_wf)
    as [configs [Hplan Hgen]].
  apply (proj2 (Hgen string failing_agent)).
  vm_compute in Hplan. injection Hplan as <-.
  eexists [], _, _, []. split; [reflexivity |].
  split; [constructor | reflexivity].
Defined.

Lemma planned_configs_orientation_witness :
  exists configs,
    planned_configs registry3 = Ok configs /\ List.length configs = 3.
Proof.
  destruct (planned_configs_orientation registry3 registry3_wf)
    as [configs [Hplan _]].
  exists configs. split; [exact Hplan |].
  vm_compute in Hplan. injection Hplan as <-. reflexivity.
Defined.

Lemma discover_then_plan_witness :
  exists registry configs,
    discover_applications fs_three_apps "/work" [] = Ok registry /\
    planned_configs registry = Ok configs /\
    List.length configs = 3 /\
    (exists c, In c configs /\ source_app c = "SpaceAgent" /\
               In WEBSOCKET (protocols c)) /\
    (exists c, In c configs /\ source_app c = "ParadoxResolver" /\
               ~ In WEBSOCKET (protocols c)).
Proof.
  eexists.
  destruct (discover_then_plan fs_three_apps "/work" _ eq_refl)
    as [configs [Hplan [Hcount [_ Hws]]]].
  exists configs. split; [reflexivity | split; [exact Hplan |]].
  split; [simpl in Hcount; lia |].
  vm_compute in Hplan. injection Hplan as Hconfigs.
  split.
  - eexists. split; [rewrite <- Hconfigs; left; reflexivity |].
    split; [reflexivity |].
    apply Hws; [rewrite <- Hconfigs; left; reflexivity | discriminate].
  - eexists. split; [rewrite <- Hconfigs; right; right; left; reflexivity |].
    split; [reflexivity |].
    intros Hin.
    apply (proj1 (Hws _ ltac:(rewrite <- Hconfigs; right; right; left; reflexivity)) Hin).
    reflexivity.
Defined.
